(** * Shipment API over MySQL stored procedures (main.py)

    A shallow embedding of [main.py]: the FastAPI handlers, the lazily
    created connection pool, the query helper [ejecutar_consulta] and the
    pydantic models.  The MySQL server and the aiomysql driver are outside
    the program; they appear as a record of operations over an abstract
    driver state, so every statement about a handler holds for every
    behaviour of the database. *)

From Stdlib Require Import ZArith Lia Ascii String.
From stdpp Require Import base option list strings gmap fin_maps pretty.

Local Open Scope string_scope.
Local Open Scope Z_scope.
Local Open Scope list_scope.

(** ** Python values *)

(** [datetime.datetime] as pymysql builds it for a DATETIME column: a naive
    timestamp (no tzinfo).  Python's constructor keeps every field in its
    range ([datetime_ok]). *)
Record datetime := mk_datetime {
  year : Z; month : Z; day : Z;
  hour : Z; minute : Z; second : Z; microsecond : Z
}.

Definition datetime_ok (d : datetime) : bool :=
  (1 <=? year d) && (year d <=? 9999) && (1 <=? month d) && (month d <=? 12)
  && (1 <=? day d) && (day d <=? 31)
  && (0 <=? hour d) && (hour d <=? 23) && (0 <=? minute d) && (minute d <=? 59)
  && (0 <=? second d) && (second d <=? 59)
  && (0 <=? microsecond d) && (microsecond d <=? 999999).

(** The values that cross the driver boundary: NULL, integers, text and
    timestamps (the column types of the shipment schema). *)
Inductive value :=
| VNone
| VInt (n : Z)
| VStr (s : string)
| VDatetime (d : datetime).

#[global] Instance datetime_eq_dec : EqDecision datetime.
Proof. solve_decision. Defined.
#[global] Instance value_eq_dec : EqDecision value.
Proof. solve_decision. Defined.

(** *** [datetime.isoformat()] *)

Definition digit (n : Z) : ascii :=
  ascii_of_nat (48 + Z.to_nat (n mod 10)).

(** ["%0wd" % n] for [0 <= n < 10^w]: the [w] low decimal digits. *)
Fixpoint zero_padded (w : nat) (n : Z) (acc : string) : string :=
  match w with
  | O => acc
  | S w' => zero_padded w' (n / 10) (String (digit n) acc)
  end.

Definition fmt (w : nat) (n : Z) : string := zero_padded w n "".

(** ["%04d-%02d-%02dT" + "%02d:%02d:%02d"], followed by [".%06d"] when the
    microsecond part is not zero (timespec 'auto'). *)
Definition isoformat (d : datetime) : string :=
  fmt 4 (year d) +:+ "-" +:+ fmt 2 (month d) +:+ "-" +:+ fmt 2 (day d)
  +:+ "T" +:+ fmt 2 (hour d) +:+ ":" +:+ fmt 2 (minute d) +:+ ":"
  +:+ fmt 2 (second d)
  +:+ (if microsecond d =? 0 then "" else "." +:+ fmt 6 (microsecond d)).

Definition is_digit (c : ascii) : bool :=
  let n := nat_of_ascii c in (48 <=? n)%nat && (n <=? 57)%nat.

Fixpoint all_digits (s : string) : bool :=
  match s with
  | EmptyString => true
  | String c s' => is_digit c && all_digits s'
  end.

Definition take_str (n : nat) (s : string) : string := String.substring 0 n s.
Definition drop_str (n : nat) (s : string) : string :=
  String.substring n (String.length s - n) s.

(** The ISO-8601 extended calendar date and time, [YYYY-MM-DDThh:mm:ss] with
    an optional six digit fraction. *)
Definition is_iso8601 (s : string) : bool :=
  all_digits (take_str 4 s)
  && bool_decide (take_str 1 (drop_str 4 s) = "-")
  && all_digits (take_str 2 (drop_str 5 s))
  && bool_decide (take_str 1 (drop_str 7 s) = "-")
  && all_digits (take_str 2 (drop_str 8 s))
  && bool_decide (take_str 1 (drop_str 10 s) = "T")
  && all_digits (take_str 2 (drop_str 11 s))
  && bool_decide (take_str 1 (drop_str 13 s) = ":")
  && all_digits (take_str 2 (drop_str 14 s))
  && bool_decide (take_str 1 (drop_str 16 s) = ":")
  && all_digits (take_str 2 (drop_str 17 s))
  && (bool_decide (String.length s = 19%nat)
      || (bool_decide (String.length s = 26%nat)
          && bool_decide (take_str 1 (drop_str 19 s) = ".")
          && all_digits (drop_str 20 s))).

(** *** [str(n)] and [int(s)] *)

(** [str(n)] and the [{n}] of an f-string, for an [int]. *)
Definition py_str (n : Z) : string := pretty n.

(** A Python [str] is a sequence of code points.  A [string] here holds
    its UTF-8 bytes, as a string literal of this file does; a byte that is
    part of no valid encoding stands for the lone surrogate U+DC00 + byte,
    which is how [os.environ] decodes it ([surrogateescape]). *)
Definition byte (c : ascii) : Z := Z.of_nat (nat_of_ascii c).

(** The second to fourth byte of an encoding. *)
Definition continuation (b : Z) : bool := (128 <=? b) && (b <=? 191).

(** The second byte after a lead byte of three or of four: no overlong
    form, no surrogate, nothing beyond U+10FFFF. *)
Definition second_of_three (b0 b1 : Z) : bool :=
  if b0 =? 224 then (160 <=? b1) && (b1 <=? 191)
  else if b0 =? 237 then (128 <=? b1) && (b1 <=? 159)
  else continuation b1.

Definition second_of_four (b0 b1 : Z) : bool :=
  if b0 =? 240 then (144 <=? b1) && (b1 <=? 191)
  else if b0 =? 244 then (128 <=? b1) && (b1 <=? 143)
  else continuation b1.

(** The code points of a text. *)
Fixpoint utf8_decode (s : string) : list Z :=
  match s with
  | EmptyString => []
  | String c0 s1 =>
      let b0 := byte c0 in
      let escaped := (56320 + b0) :: utf8_decode s1 in
      if b0 <? 128 then b0 :: utf8_decode s1
      else
        match s1 with
        | EmptyString => escaped
        | String c1 s2 =>
            let b1 := byte c1 in
            if (194 <=? b0) && (b0 <=? 223) then
              if continuation b1
              then ((b0 - 192) * 64 + (b1 - 128)) :: utf8_decode s2
              else escaped
            else
              match s2 with
              | EmptyString => escaped
              | String c2 s3 =>
                  let b2 := byte c2 in
                  if (224 <=? b0) && (b0 <=? 239) then
                    if second_of_three b0 b1 && continuation b2
                    then ((b0 - 224) * 4096 + (b1 - 128) * 64 + (b2 - 128))
                         :: utf8_decode s3
                    else escaped
                  else
                    match s3 with
                    | EmptyString => escaped
                    | String c3 s4 =>
                        let b3 := byte c3 in
                        if (240 <=? b0) && (b0 <=? 244)
                           && second_of_four b0 b1 && continuation b2
                           && continuation b3
                        then ((b0 - 240) * 262144 + (b1 - 128) * 4096
                              + (b2 - 128) * 64 + (b3 - 128))
                             :: utf8_decode s4
                        else escaped
                    end
              end
        end
  end.

(** What [int()] takes from the interpreter and main.py does not fix: the
    Unicode database ([Py_UNICODE_ISSPACE], [Py_UNICODE_TODECIMAL]) and the
    limit on the digits of a conversion ([sys.get_int_max_str_digits()],
    0 for no limit). *)
Class Interpreter := {
  unicode_isspace : Z → bool;
  unicode_todecimal : Z → option Z;
  int_max_str_digits : Z
}.

(** CPython 3.11 (Unicode 14.0): the code points of the digit zero of each
    run of ten decimal digits, and the white space. *)
Definition decimal_zeros : list Z :=
  [48; 1632; 1776; 1984; 2406; 2534; 2662; 2790; 2918; 3046; 3174; 3302;
   3430; 3558; 3664; 3792; 3872; 4160; 4240; 6112; 6160; 6470; 6608; 6784;
   6800; 6992; 7088; 7232; 7248; 42528; 43216; 43264; 43472; 43504; 43600;
   44016; 65296; 66720; 68912; 69734; 69872; 69942; 70096; 70384; 70736;
   70864; 71248; 71360; 71472; 71904; 72016; 72784; 73040; 73120; 92768;
   92864; 93008; 120782; 120792; 120802; 120812; 120822; 123200; 123632;
   125264; 130032].

Definition whitespace : list Z :=
  [9; 10; 11; 12; 13; 28; 29; 30; 31; 32; 133; 160; 5760; 8192; 8193; 8194;
   8195; 8196; 8197; 8198; 8199; 8200; 8201; 8202; 8232; 8233; 8239; 8287;
   12288].

#[global] Instance cpython_3_11 : Interpreter := {|
  unicode_isspace cp := bool_decide (cp ∈ whitespace);
  unicode_todecimal cp :=
    (λ zero, cp - zero)
      <$> head (filter (λ zero, zero ≤ cp < zero + 10) decimal_zeros);
  int_max_str_digits := 4300
|}.

(** What a code point is to [int()].  Code points below 127 are taken as
    they are: white space is tab to carriage return and the space, digits
    are [0] to [9].  Others are white space or decimal digits as the
    Unicode database says. *)
Inductive int_char :=
| ISpace | IDigit (d : Z) | IPlus | IMinus | IUnderscore | IOther.

Definition classify `{Interpreter} (cp : Z) : int_char :=
  if cp <? 127 then
    if ((9 <=? cp) && (cp <=? 13)) || (cp =? 32) then ISpace
    else if (48 <=? cp) && (cp <=? 57) then IDigit (cp - 48)
    else if cp =? 43 then IPlus
    else if cp =? 45 then IMinus
    else if cp =? 95 then IUnderscore
    else IOther
  else if unicode_isspace cp then ISpace
  else match unicode_todecimal cp with
       | Some d => IDigit d
       | None => IOther
       end.

Fixpoint skip_spaces (l : list int_char) : list int_char :=
  match l with
  | ISpace :: l' => skip_spaces l'
  | _ => l
  end.

(** The digits of a literal, single underscores allowed between them;
    [prev] tells whether the previous character was a digit.  Gives the
    value, the number of digits and what follows them. *)
Fixpoint scan_digits (l : list int_char) (prev : bool) (acc count : Z)
    : option (Z * Z * list int_char) :=
  match l with
  | IDigit d :: l' => scan_digits l' true (10 * acc + d) (count + 1)
  | IUnderscore :: l' =>
      if prev then scan_digits l' false acc count else None
  | _ => if prev then Some (acc, count, l) else None
  end.

(** The limit applies to literals of more than 640 digits. *)
Definition exceeds_limit `{Interpreter} (count : Z) : bool :=
  (640 <? count) && (0 <? int_max_str_digits)
  && (int_max_str_digits <? count).

(** [int(s)] in base ten: white space, an optional sign, the digits, white
    space; [None] is [ValueError]. *)
Definition py_int `{Interpreter} (s : string) : option Z :=
  let l := skip_spaces (classify <$> utf8_decode s) in
  let '(sign, l) :=
    match l with
    | IPlus :: l' => (1, l')
    | IMinus :: l' => (-1, l')
    | _ => (1, l)
    end in
  match scan_digits l false 0 0 with
  | Some (n, count, rest) =>
      match skip_spaces rest with
      | [] => if exceeds_limit count then None else Some (sign * n)
      | _ => None
      end
  | None => None
  end.

(** The number of decimal digits of an integer. *)
Definition decimal_digits (n : Z) : Z :=
  Z.of_nat (String.length (py_str (Z.abs n))).

(** ** Dictionaries *)

(** [dict(pairs)]: pairs are inserted from left to right, so a key that
    occurs twice keeps the value of its last occurrence. *)
Definition py_dict (pairs : list (string * value)) : gmap string value :=
  foldl (λ d kv, <[kv.1 := kv.2]> d) ∅ pairs.

(** ** pydantic *)

(** What [BaseModel.__init__] reports for one field: the key is absent from
    the keyword arguments, or its value is rejected by the field's type. *)
Inductive field_error := Missing | Invalid.

#[global] Instance field_error_eq_dec : EqDecision field_error.
Proof. solve_decision. Defined.

(** The field validators of pydantic, which main.py imports.  Only what
    every release guarantees is fixed here: a value of the declared type is
    kept, and [None] and timestamps are neither [int] nor [str].  Whether
    other values are coerced (text to [int], numbers to [str]) is left to
    the instance. *)
Class Pydantic := {
  validate_int : value → option Z;
  validate_str : value → option string;
  validate_int_int n : validate_int (VInt n) = Some n;
  validate_str_str s : validate_str (VStr s) = Some s;
  validate_int_none : validate_int VNone = None;
  validate_str_none : validate_str VNone = None;
  validate_int_datetime d : validate_int (VDatetime d) = None;
  validate_str_datetime d : validate_str (VDatetime d) = None
}.

(** pydantic 1 ([int_validator] is [int(v)], [str_validator] accepts
    numbers through [str(v)]). *)
#[global, refine] Instance pydantic_v1 `{Interpreter} : Pydantic := {|
  validate_int v :=
    match v with VInt n => Some n | VStr s => py_int s | _ => None end;
  validate_str v :=
    match v with VStr s => Some s | VInt n => Some (py_str n) | _ => None end
|}.
Proof. all: reflexivity. Defined.

(** Validation of a model collects the errors of all fields, in field
    order, before raising. *)
Definition validation (A : Type) : Type := list (string * field_error) + A.

Definition field {A} (validator : value → option A)
    (kwargs : gmap string value) (name : string) : validation A :=
  match kwargs !! name with
  | None => inl [(name, Missing)]
  | Some v =>
      match validator v with
      | Some a => inr a
      | None => inl [(name, Invalid)]
      end
  end.

Definition vap {A B} (f : validation (A → B)) (x : validation A)
    : validation B :=
  match f, x with
  | inr f, inr x => inr (f x)
  | inl e, inr _ => inl e
  | inr _, inl e => inl e
  | inl e1, inl e2 => inl (e1 ++ e2)%list
  end.

Notation "f <*> x" := (vap f x) (at level 61, left associativity).

(** *** MODELOS *)

Module Repartidor.
Record t := mk {
  repartidor_id : Z; nombre : string; apellido : string; telefono : string
}.
(** [Repartidor( **kwargs )] *)
Definition model `{Pydantic} (kwargs : gmap string value) : validation t :=
  inr mk <*> field validate_int kwargs "repartidor_id"
         <*> field validate_str kwargs "nombre"
         <*> field validate_str kwargs "apellido"
         <*> field validate_str kwargs "telefono".
End Repartidor.

Module EstadoEnvio.
Record t := mk { estado_id : Z; nombre_estado : string }.
(** [EstadoEnvio( **kwargs )] *)
Definition model `{Pydantic} (kwargs : gmap string value) : validation t :=
  inr mk <*> field validate_int kwargs "estado_id"
         <*> field validate_str kwargs "nombre_estado".
End EstadoEnvio.

(** [EnvioBase], and [EnvioCreate] which adds nothing to it: the request
    body after FastAPI has validated it. *)
Module EnvioCreate.
Record t := mk {
  remitente : string; destinatario : string; direccion_envio : string;
  fecha_envio : datetime; repartidor_id : Z; estado_id : Z
}.
End EnvioCreate.

Module EnvioOut.
Record t := mk {
  envio_id : Z; remitente : string; destinatario : string;
  direccion_envio : string; fecha_envio : string;
  nombre_repartidor : string; apellido_repartidor : string; estado : string
}.
(** [EnvioOut( **kwargs )] *)
Definition model `{Pydantic} (kwargs : gmap string value) : validation t :=
  inr mk <*> field validate_int kwargs "envio_id"
         <*> field validate_str kwargs "remitente"
         <*> field validate_str kwargs "destinatario"
         <*> field validate_str kwargs "direccion_envio"
         <*> field validate_str kwargs "fecha_envio"
         <*> field validate_str kwargs "nombre_repartidor"
         <*> field validate_str kwargs "apellido_repartidor"
         <*> field validate_str kwargs "estado".
End EnvioOut.

Module Envio.
Record t := mk {
  remitente : string; destinatario : string; direccion_envio : string;
  fecha_envio : datetime; repartidor_id : Z; estado_id : Z;
  envio_id : Z
}.
(** [Envio(envio_id=v, **envio.dict( ))]: the six inherited fields come
    from a validated [EnvioCreate], whose values already have the declared
    types and are kept as they are; only [envio_id] is a value of unknown
    type. *)
Definition model `{Pydantic} (v : value) (envio : EnvioCreate.t)
    : validation t :=
  match validate_int v with
  | Some n =>
      inr (mk (EnvioCreate.remitente envio) (EnvioCreate.destinatario envio)
             (EnvioCreate.direccion_envio envio)
             (EnvioCreate.fecha_envio envio)
             (EnvioCreate.repartidor_id envio)
             (EnvioCreate.estado_id envio) n)
  | None => inl [("envio_id", Invalid)]
  end.
End Envio.

(** ** Exceptions *)

Inductive exn :=
| HTTPException (status_code : Z) (detail : string)
| ValidationError (errors : list (string * field_error))
| KeyError (key : string)
| IndexError
| TypeError
| ValueError
| DriverError (msg : string).

#[global] Instance exn_eq_dec : EqDecision exn.
Proof. solve_decision. Defined.

Definition validated {A} (v : validation A) : exn + A :=
  match v with
  | inl errors => inl (ValidationError errors)
  | inr a => inr a
  end.

(** ** Configuration: the module level [os.getenv] calls *)

Record config := mk_config {
  DB_HOST : option string;
  DB_PORT : Z;
  DB_USER : option string;
  DB_PASSWORD : option string;
  DB_NAME : option string
}.

(** [os.getenv(k)] is [None] for an unset variable.  [int(None)] raises
    [TypeError], [int(s)] raises [ValueError] on text that is no number. *)
Definition load_config `{Interpreter} (environ : gmap string string)
    : exn + config :=
  let host := environ !! "DB_HOST" in
  match environ !! "DB_PORT" with
  | None => inl TypeError
  | Some s =>
      match py_int s with
      | None => inl ValueError
      | Some port =>
          inr (mk_config host port (environ !! "DB_USER")
                 (environ !! "DB_PASSWORD") (environ !! "DB_NAME"))
      end
  end.

(** ** The aiomysql driver *)

Definition pool_handle := nat.
Definition conn_handle := nat.
Definition cursor_handle := nat.

(** The keyword arguments of [aiomysql.create_pool]. *)
Record pool_args := mk_pool_args {
  host : option string; port : Z; user : option string;
  password : option string; db : option string; autocommit : bool
}.

(** One entry of [cursor.description]; [col[0]] is the column name. *)
Record column := mk_column { col_name : string; type_code : Z }.

Definition row := list value.

(** The operations main.py calls on aiomysql, over the state [S] of the
    driver and of the server behind it.  A left result is an exception
    raised by the call. *)
Record aiomysql (S : Type) := {
  create_pool : pool_args → S → (string + pool_handle) * S;
  acquire : pool_handle → S → (string + conn_handle) * S;
  release : pool_handle → conn_handle → S → S;
  cursor : conn_handle → S → (string + cursor_handle) * S;
  execute : cursor_handle → string → option (list value) → S
            → (string + unit) * S;
  fetchall : cursor_handle → S → (string + list row) * S;
  description : cursor_handle → S → option (list column);
  cursor_close : cursor_handle → S → (string + unit) * S;
  pool_close : pool_handle → S → S;
  wait_closed : pool_handle → S → (string + unit) * S
}.
Arguments create_pool {S}. Arguments acquire {S}. Arguments release {S}.
Arguments cursor {S}. Arguments execute {S}. Arguments fetchall {S}.
Arguments description {S}. Arguments cursor_close {S}.
Arguments pool_close {S}. Arguments wait_closed {S}.

(** The calls made on the driver, oldest first. *)
Inductive event :=
| EvCreatePool (args : pool_args)
| EvAcquire (p : pool_handle) (c : conn_handle)
| EvRelease (p : pool_handle) (c : conn_handle)
| EvCursor (c : conn_handle) (k : cursor_handle)
| EvExecute (k : cursor_handle) (query : string) (params : option (list value))
| EvFetchall (k : cursor_handle)
| EvCursorClose (k : cursor_handle)
| EvPoolClose (p : pool_handle)
| EvWaitClosed (p : pool_handle).

(** The state of the process: the global [pool], the driver, and the record
    of the calls made so far. *)
Record world (S : Type) := mk_world {
  pool : option pool_handle;
  driver : S;
  log : list event
}.
Arguments mk_world {S}. Arguments pool {S}. Arguments driver {S}.
Arguments log {S}.

(** ** Handlers *)

Section Program.
Context {S : Type} (sql : aiomysql S) `{Pydantic} (cfg : config).

(** A coroutine: it runs on the process state and returns or raises. *)
Definition M (A : Type) : Type := world S → (exn + A) * world S.

Definition ret {A} (a : A) : M A := λ w, (inr a, w).
Definition raise {A} (e : exn) : M A := λ w, (inl e, w).
Definition bind {A B} (m : M A) (k : A → M B) : M B :=
  λ w, match m w with
       | (inr a, w') => k a w'
       | (inl e, w') => (inl e, w')
       end.
Definition lift {A} (r : exn + A) : M A := λ w, (r, w).

Notation "'let*' x ':=' m 'in' k" := (bind m (λ x, k))
  (at level 10, x pattern, k at level 200).

(** A driver call: it is recorded, then run on the driver's state. *)
Definition call {A} (ev : event) (f : S → (string + A) * S) : M A :=
  λ w, match f (driver w) with
       | (inr a, s) => (inr a, mk_world (pool w) s (log w ++ [ev]))
       | (inl msg, s) =>
           (inl (DriverError msg), mk_world (pool w) s (log w ++ [ev]))
       end.

(** *** CONEXION CON MYSQL *)

Definition get_pool : M pool_handle :=
  λ w, match pool w with
       | None =>
           let args := mk_pool_args (DB_HOST cfg) (DB_PORT cfg) (DB_USER cfg)
                         (DB_PASSWORD cfg) (DB_NAME cfg) true in
           match create_pool sql args (driver w) with
           | (inr p, s) =>
               (inr p, mk_world (Some p) s (log w ++ [EvCreatePool args]))
           | (inl msg, s) =>
               (inl (DriverError msg),
                mk_world None s (log w ++ [EvCreatePool args]))
           end
       | Some p => (inr p, w)
       end.

Definition startup : M unit :=
  let* _ := get_pool in ret tt.

Definition shutdown : M unit :=
  λ w, match pool w with
       | Some p =>
           (let* _ := call (EvPoolClose p)
                        (λ s, (inr tt, pool_close sql p s)) in
            call (EvWaitClosed p) (wait_closed sql p)) w
       | None => (inr tt, w)
       end.

(** *** FUNCION UTILITARIA PARA CONSULTAS *)

(** [async with pool_obj.acquire() as conn]: the connection goes back to
    the pool when the block is left, whether it returns or raises. *)
Definition with_acquire {A} (p : pool_handle) (body : conn_handle → M A)
    : M A :=
  λ w, match acquire sql p (driver w) with
       | (inl msg, s) => (inl (DriverError msg), mk_world (pool w) s (log w))
       | (inr c, s) =>
           let '(r, w') :=
             body c (mk_world (pool w) s (log w ++ [EvAcquire p c])) in
           (r, mk_world (pool w') (release sql p c (driver w'))
                 (log w' ++ [EvRelease p c]))
       end.

(** [async with conn.cursor() as cursor]: the cursor is closed when the
    block is left; an exception raised by the close replaces the outcome
    of the block. *)
Definition with_cursor {A} (c : conn_handle) (body : cursor_handle → M A)
    : M A :=
  λ w, match cursor sql c (driver w) with
       | (inl msg, s) => (inl (DriverError msg), mk_world (pool w) s (log w))
       | (inr k, s) =>
           let '(r, w') :=
             body k (mk_world (pool w) s (log w ++ [EvCursor c k])) in
           match call (EvCursorClose k) (cursor_close sql k) w' with
           | (inr _, w'') => (r, w'')
           | (inl e, w'') => (inl e, w'')
           end
       end.

Definition ejecutar_consulta (query : string) (params : option (list value))
    : M (list row * option (list column)) :=
  let* pool_obj := get_pool in
  with_acquire pool_obj (λ conn,
    with_cursor conn (λ cursor,
      let* _ := call (EvExecute cursor query params)
                  (execute sql cursor query params) in
      let* rows := call (EvFetchall cursor) (fetchall sql cursor) in
      λ w, (inr (rows, description sql cursor (driver w)), w))).

(** [[col[0] for col in description]]; iterating [None] raises. *)
Definition column_names (description : option (list column))
    : exn + list string :=
  match description with
  | Some cols => inr (col_name <$> cols)
  | None => inl TypeError
  end.

(** A comprehension or loop over the rows: the first row that raises ends
    it. *)
Fixpoint for_each {A B} (f : A → exn + B) (l : list A) : exn + list B :=
  match l with
  | [] => inr []
  | a :: l' =>
      match f a with
      | inl e => inl e
      | inr b =>
          match for_each f l' with
          | inl e => inl e
          | inr bs => inr (b :: bs)
          end
      end
  end.

(** *** RUTA DE PRUEBA *)

Definition root : M string := ret "Bienvenido papu".

(** *** COMBOS *)

Definition listar_repartidores : M (list Repartidor.t) :=
  let query := "CALL sp_cbox_listar_repartidor()" in
  let* (rows, description) := ejecutar_consulta query None in
  let* column_names := lift (column_names description) in
  lift (for_each
          (λ row,
             validated (Repartidor.model (py_dict (zip column_names row))))
          rows).

Definition listar_estados_envio : M (list EstadoEnvio.t) :=
  let query := "CALL sp_cbox_listar_estado_envio()" in
  let* (rows, description) := ejecutar_consulta query None in
  let* column_names := lift (column_names description) in
  lift (for_each
          (λ row,
             validated (EstadoEnvio.model (py_dict (zip column_names row))))
          rows).

(** *** ENVIOS *)

(** The body shared by the loop of [listar_envios] and by the tail of
    [obtener_envio]: build the dictionary, replace a [datetime] under
    ['fecha_envio'] by its [isoformat()], construct [EnvioOut]. *)
Definition envio_out (column_names : list string) (row : row)
    : exn + EnvioOut.t :=
  let envio_data := py_dict (zip column_names row) in
  match envio_data !! "fecha_envio" with
  | None => inl (KeyError "fecha_envio")
  | Some (VDatetime d) =>
      validated
        (EnvioOut.model (<["fecha_envio" := VStr (isoformat d)]> envio_data))
  | Some _ => validated (EnvioOut.model envio_data)
  end.

Definition listar_envios : M (list EnvioOut.t) :=
  let query := "CALL sp_listar_envio()" in
  let* (rows, description) := ejecutar_consulta query None in
  let* column_names := lift (column_names description) in
  lift (for_each (envio_out column_names) rows).

Definition obtener_envio (envio_id : Z) : M EnvioOut.t :=
  let query := "CALL sp_listar_envio_por_id(%s)" in
  let params := [VInt envio_id] in
  let* (rows, description) := ejecutar_consulta query (Some params) in
  match rows with
  | [] => raise (HTTPException 404 "Envío no encontrado")
  | row0 :: _ =>
      let* column_names := lift (column_names description) in
      lift (envio_out column_names row0)
  end.

Definition envio_params (envio : EnvioCreate.t) : list value :=
  [VStr (EnvioCreate.remitente envio);
   VStr (EnvioCreate.destinatario envio);
   VStr (EnvioCreate.direccion_envio envio);
   VDatetime (EnvioCreate.fecha_envio envio);
   VInt (EnvioCreate.repartidor_id envio);
   VInt (EnvioCreate.estado_id envio)].

(** [rows[0][0]] *)
Definition first_cell (rows : list row) : exn + value :=
  match rows with
  | (v :: _) :: _ => inr v
  | _ => inl IndexError
  end.

Definition crear_envio (envio : EnvioCreate.t) : M Envio.t :=
  let query := "CALL sp_crear_envio(%s, %s, %s, %s, %s, %s)" in
  let params := envio_params envio in
  let* _ := ejecutar_consulta query (Some params) in
  let* (rows, _) := ejecutar_consulta "SELECT LAST_INSERT_ID()" None in
  let* last_id := lift (first_cell rows) in
  lift (validated (Envio.model last_id envio)).

Definition actualizar_envio (envio_id : Z) (envio : EnvioCreate.t)
    : M Envio.t :=
  let query := "CALL sp_actualizar_envio(%s, %s, %s, %s, %s, %s, %s)" in
  let params := (envio_params envio ++ [VInt envio_id])%list in
  let* _ := ejecutar_consulta query (Some params) in
  lift (validated (Envio.model (VInt envio_id) envio)).

Definition eliminar_envio (envio_id : Z) : M string :=
  let query := "CALL sp_eliminar_envio(%s)" in
  let* _ := ejecutar_consulta query (Some [VInt envio_id]) in
  ret ("Envío con ID " +:+ py_str envio_id +:+ " eliminado correctamente.").

(** *** The process *)

(** What the server runs: the two lifespan events and the routes. *)
Inductive request :=
| Startup
| Shutdown
| GetRoot
| GetRepartidores
| GetEstadosEnvio
| GetEnvios
| GetEnvio (envio_id : Z)
| PostEnvio (envio : EnvioCreate.t)
| PutEnvio (envio_id : Z) (envio : EnvioCreate.t)
| DeleteEnvio (envio_id : Z).

(** The state a request leaves behind when its handler runs from start
    to end with nothing else in between; its response is dropped. *)
Definition serve (r : request) (w : world S) : world S :=
  match r with
  | Startup => (startup w).2
  | Shutdown => (shutdown w).2
  | GetRoot => (root w).2
  | GetRepartidores => (listar_repartidores w).2
  | GetEstadosEnvio => (listar_estados_envio w).2
  | GetEnvios => (listar_envios w).2
  | GetEnvio envio_id => (obtener_envio envio_id w).2
  | PostEnvio envio => (crear_envio envio w).2
  | PutEnvio envio_id envio => (actualizar_envio envio_id envio w).2
  | DeleteEnvio envio_id => (eliminar_envio envio_id w).2
  end.

End Program.

(** Importing the module (which reads the environment) and then running
    the startup event, on a driver in state [s]. *)
Definition boot `{Interpreter} {S} (sql : aiomysql S)
    (environ : gmap string string) (s : S) : exn + world S :=
  match load_config environ with
  | inl e => inl e
  | inr cfg =>
      match startup sql cfg (mk_world None s []) with
      | (inl e, _) => inl e
      | (inr _, w) => inr w
      end
  end.

(** ** Reading the record of driver calls *)

Definition is_acquire (ev : event) : bool :=
  match ev with EvAcquire _ _ => true | _ => false end.
Definition is_release (ev : event) : bool :=
  match ev with EvRelease _ _ => true | _ => false end.
Definition is_create_pool (ev : event) : bool :=
  match ev with EvCreatePool _ => true | _ => false end.
Definition is_execute (ev : event) : bool :=
  match ev with EvExecute _ _ _ => true | _ => false end.

(** The acquisitions and releases among the calls, in order. *)
Definition pool_traffic (l : list event) : list event :=
  filter (λ ev, is_acquire ev || is_release ev) l.

(** The statements sent to the server, in order. *)
Definition statements (l : list event) : list event := filter is_execute l.

Definition creations (l : list event) : nat :=
  length (filter is_create_pool l).

(** The driver calls of one successful query, given the pool, the
    connection and the cursor it used. *)
Definition query_calls (p : pool_handle) (c : conn_handle)
    (k : cursor_handle) (query : string) (params : option (list value))
    : list event :=
  [EvAcquire p c; EvCursor c k; EvExecute k query params; EvFetchall k;
   EvCursorClose k; EvRelease p c].

(** A validation that fails and reports [err] among its errors. *)
Definition fails_with {A} (v : validation A) (err : string * field_error)
    : Prop :=
  ∃ errs, v = inl errs ∧ err ∈ errs.

(** ** The shape of the shipment view *)

Inductive field_type := TInt | TStr.

(** The fields of [EnvioOut] with their declared types. *)
Definition EnvioOut_fields : list (string * field_type) :=
  [("envio_id", TInt); ("remitente", TStr); ("destinatario", TStr);
   ("direccion_envio", TStr); ("fecha_envio", TStr);
   ("nombre_repartidor", TStr); ("apellido_repartidor", TStr);
   ("estado", TStr)].

(** What the validator of a type makes of a value. *)
Definition coerce `{Pydantic} (ty : field_type) (v : value) : option value :=
  match ty with
  | TInt => VInt <$> validate_int v
  | TStr => VStr <$> validate_str v
  end.

(** [record.dict()] of an [EnvioOut]. *)
Definition EnvioOut_dict (r : EnvioOut.t) : gmap string value :=
  py_dict
    [("envio_id", VInt (EnvioOut.envio_id r));
     ("remitente", VStr (EnvioOut.remitente r));
     ("destinatario", VStr (EnvioOut.destinatario r));
     ("direccion_envio", VStr (EnvioOut.direccion_envio r));
     ("fecha_envio", VStr (EnvioOut.fecha_envio r));
     ("nombre_repartidor", VStr (EnvioOut.nombre_repartidor r));
     ("apellido_repartidor", VStr (EnvioOut.apellido_repartidor r));
     ("estado", VStr (EnvioOut.estado r))].

(** What goes into the outbound record for a column value: a timestamp
    under [fecha_envio] goes as its ISO text, anything else as it is. *)
Definition outbound (name : string) (v : value) : value :=
  match v with
  | VDatetime d =>
      if bool_decide (name = "fecha_envio") then VStr (isoformat d) else v
  | _ => v
  end.

(** Column [i] is the one the dictionary keeps for its name: no later
    column of the row has the same name. *)
Definition last_column (names : list string) (row : row) (i : nat) : Prop :=
  ∀ j name, (i < j)%nat → (j < length row)%nat →
    names !! i = Some name → names !! j ≠ Some name.

(** The record holds, under each of its field names, the validated
    outbound form of the value found in the column of that name. *)
Definition row_maps_to `{Pydantic} (names : list string) (row : row)
    (r : EnvioOut.t) : Prop :=
  ∀ i name ty v,
    (name, ty) ∈ EnvioOut_fields →
    names !! i = Some name → row !! i = Some v → last_column names row i →
    coerce ty (outbound name v) = EnvioOut_dict r !! name.

(** A timestamp in the [fecha_envio] column reaches the record as its
    ISO-8601 text. *)
Definition fecha_serialized (names : list string) (row : row)
    (r : EnvioOut.t) : Prop :=
  ∀ i d,
    names !! i = Some "fecha_envio" → row !! i = Some (VDatetime d) →
    last_column names row i →
    EnvioOut.fecha_envio r = isoformat d
    ∧ is_iso8601 (EnvioOut.fecha_envio r) = true.

(** ** A driver with fixed answers

    A server that answers each statement by a function of its text and
    parameters: [answer] gives the exception raised by [execute] or the
    result set and its description.  The driver state is the result set of
    the last statement.  The pool has one connection, numbered 0. *)
Definition result_set : Type := list row * option (list column).

Definition fixed_driver
    (answer : string → option (list value) → string + result_set)
    : aiomysql result_set := {|
  create_pool _ s := (inr 0%nat, s);
  acquire _ s := (inr 0%nat, s);
  release _ _ s := s;
  cursor _ s := (inr 0%nat, s);
  execute _ query params s :=
    match answer query params with
    | inl msg => (inl msg, s)
    | inr res => (inr tt, res)
    end;
  fetchall _ s := (inr s.1, s);
  description _ s := s.2;
  cursor_close _ s := (inr tt, s);
  pool_close _ s := s;
  wait_closed _ s := (inr tt, s)
|}.

Definition world0 {S} (s : S) : world S := mk_world None s [].

Definition cfg0 : config :=
  mk_config (Some "db.example") 3306 (Some "api") (Some "secret")
    (Some "envios").

(** ** The stored procedures *)

(** Modelled from the spec: the stored procedures [sp_crear_envio],
    [sp_actualizar_envio], [sp_eliminar_envio] and [sp_listar_envio_por_id]
    and the tables behind them are not part of main.py.  The spec gives a
    shipment its six input fields under a server-assigned id, has the
    procedures enforce that the delivery-person and status references exist,
    and has the shipment view carry the delivery person's first and last
    name and the status label in place of the two references.  As in MySQL,
    [LAST_INSERT_ID()] is kept for each connection and is 0 on a connection
    that has inserted nothing. *)
Record database := mk_database {
  envios : gmap Z EnvioCreate.t;
  repartidores : gmap Z (string * string * string);
  estados_envio : gmap Z string;
  auto_increment : Z;
  last_insert_id : gmap nat Z;
  handout : list conn_handle;
  results : gmap nat result_set
}.

Definition references_ok (db : database) (e : EnvioCreate.t) : bool :=
  bool_decide (is_Some (repartidores db !! EnvioCreate.repartidor_id e))
  && bool_decide (is_Some (estados_envio db !! EnvioCreate.estado_id e)).

Definition envio_of_params (params : list value) : option EnvioCreate.t :=
  match params with
  | VStr r :: VStr d :: VStr a :: VDatetime f :: VInt rep :: VInt est :: _ =>
      Some (EnvioCreate.mk r d a f rep est)
  | _ => None
  end.

Definition view_columns : list column :=
  [mk_column "envio_id" 3; mk_column "remitente" 253;
   mk_column "destinatario" 253; mk_column "direccion_envio" 253;
   mk_column "fecha_envio" 12; mk_column "nombre_repartidor" 253;
   mk_column "apellido_repartidor" 253; mk_column "estado" 253].

(** The joined view of one shipment. *)
Definition view_row (db : database) (id : Z) : list row :=
  match envios db !! id with
  | Some e =>
      match repartidores db !! EnvioCreate.repartidor_id e,
            estados_envio db !! EnvioCreate.estado_id e with
      | Some (nombre, apellido, _), Some estado =>
          [[VInt id; VStr (EnvioCreate.remitente e);
            VStr (EnvioCreate.destinatario e);
            VStr (EnvioCreate.direccion_envio e);
            VDatetime (EnvioCreate.fecha_envio e);
            VStr nombre; VStr apellido; VStr estado]]
      | _, _ => []
      end
  | None => []
  end.

Definition set_results (c : nat) (res : result_set) (db : database)
    : database :=
  mk_database (envios db) (repartidores db) (estados_envio db)
    (auto_increment db) (last_insert_id db) (handout db)
    (<[c := res]> (results db)).

(** One statement on connection [c]. *)
Definition statement (c : nat) (query : string) (params : option (list value))
    (db : database) : (string + unit) * database :=
  if bool_decide (query = "CALL sp_crear_envio(%s, %s, %s, %s, %s, %s)") then
    match params ≫= envio_of_params with
    | Some e =>
        if references_ok db e then
          let id := auto_increment db in
          (inr tt,
           mk_database (<[id := e]> (envios db)) (repartidores db)
             (estados_envio db) (id + 1) (<[c := id]> (last_insert_id db))
             (handout db) (<[c := ([], None)]> (results db)))
        else (inl "foreign key constraint fails", db)
    | None => (inl "incorrect arguments", db)
    end
  else if bool_decide (query = "SELECT LAST_INSERT_ID()") then
    (inr tt,
     set_results c
       ([[VInt (default 0 (last_insert_id db !! c))]],
        Some [mk_column "LAST_INSERT_ID()" 8]) db)
  else if bool_decide
       (query = "CALL sp_actualizar_envio(%s, %s, %s, %s, %s, %s, %s)") then
    match params ≫= envio_of_params, params ≫= (λ l, l !! 6%nat) with
    | Some e, Some (VInt id) =>
        if references_ok db e then
          (inr tt,
           mk_database
             (match envios db !! id with
              | Some _ => <[id := e]> (envios db)
              | None => envios db
              end)
             (repartidores db) (estados_envio db) (auto_increment db)
             (last_insert_id db) (handout db)
             (<[c := ([], None)]> (results db)))
        else (inl "foreign key constraint fails", db)
    | _, _ => (inl "incorrect arguments", db)
    end
  else if bool_decide (query = "CALL sp_eliminar_envio(%s)") then
    match params with
    | Some [VInt id] =>
        (inr tt,
         mk_database (delete id (envios db)) (repartidores db)
           (estados_envio db) (auto_increment db) (last_insert_id db)
           (handout db) (<[c := ([], None)]> (results db)))
    | _ => (inl "incorrect arguments", db)
    end
  else if bool_decide (query = "CALL sp_listar_envio_por_id(%s)") then
    match params with
    | Some [VInt id] =>
        (inr tt, set_results c (view_row db id, Some view_columns) db)
    | _ => (inl "incorrect arguments", db)
    end
  else (inl "unknown statement", db).

(** The pool hands out the connections listed in [handout], then connection
    0 again and again; which connection a request gets depends on the other
    requests in flight.  A cursor carries the number of its connection. *)
Definition mysql : aiomysql database := {|
  create_pool _ db := (inr 0%nat, db);
  acquire _ db :=
    match handout db with
    | c :: rest =>
        (inr c,
         mk_database (envios db) (repartidores db) (estados_envio db)
           (auto_increment db) (last_insert_id db) rest (results db))
    | [] => (inr 0%nat, db)
    end;
  release _ _ db := db;
  cursor c db := (inr c, db);
  execute := statement;
  fetchall k db := (inr (default [] (fst <$> results db !! k)), db);
  description k db := results db !! k ≫= snd;
  cursor_close _ db := (inr tt, db);
  pool_close _ db := db;
  wait_closed _ db := (inr tt, db)
|}.

Definition db0 : database :=
  mk_database ∅ {[1 := ("Ana", "Paz", "555-0101")]} {[1 := "Pendiente"]} 1
    ∅ [] ∅.

Definition envio_a : EnvioCreate.t :=
  EnvioCreate.mk "A" "B" "X" (mk_datetime 2024 1 1 10 0 0 0) 1 1.

Definition envio_b : EnvioCreate.t :=
  EnvioCreate.mk "C" "D" "Y" (mk_datetime 2024 2 29 8 30 0 250000) 1 1.

(** One shipment, number 1. *)
Definition db1 : database :=
  mk_database {[1 := envio_a]} {[1 := ("Ana", "Paz", "555-0101")]}
    {[1 := "Pendiente"]} 2 ∅ [] ∅.

(** No shipment yet, and a pool that serves the next two acquisitions from
    two different connections. *)
Definition db_two_connections : database :=
  mk_database ∅ {[1 := ("Ana", "Paz", "555-0101")]} {[1 := "Pendiente"]} 1 ∅
    [0%nat; 1%nat] ∅.

(** A server that answers every statement with two rows of the shipment
    view. *)
Definition two_envios : aiomysql result_set :=
  fixed_driver (λ _ _,
    inr ([[VInt 1; VStr "A"; VStr "B"; VStr "X";
           VDatetime (mk_datetime 2024 1 1 10 0 0 0);
           VStr "Ana"; VStr "Paz"; VStr "Pendiente"];
          [VInt 2; VStr "C"; VStr "D"; VStr "Y";
           VDatetime (mk_datetime 2024 2 29 8 30 0 250000);
           VStr "Luis"; VStr "Rey"; VStr "Entregado"]],
         Some view_columns)).

(** A server that answers every statement with two delivery people. *)
Definition two_repartidores : aiomysql result_set :=
  fixed_driver (λ _ _,
    inr ([[VInt 1; VStr "Ana"; VStr "Paz"; VStr "555-0101"];
          [VInt 2; VStr "Luis"; VStr "Rey"; VStr "555-0102"]],
         Some [mk_column "repartidor_id" 3; mk_column "nombre" 253;
               mk_column "apellido" 253; mk_column "telefono" 253])).

(** A server on which every statement fails. *)
Definition failing_server : aiomysql result_set :=
  fixed_driver (λ _ _, inl "server has gone away").

(** An environment with every variable set, and one without [DB_NAME]. *)
Definition environ_full : gmap string string :=
  {[ "DB_HOST" := "db.example"; "DB_PORT" := "3306"; "DB_USER" := "api";
     "DB_PASSWORD" := "secret"; "DB_NAME" := "envios" ]}.

Definition environ_without_name : gmap string string :=
  {[ "DB_HOST" := "db.example"; "DB_PORT" := "3306"; "DB_USER" := "api";
     "DB_PASSWORD" := "secret" ]}.

(** The shipment view with the id sent as text. *)
Definition row_with_text_id : row :=
  [VStr "5"; VStr "A"; VStr "B"; VStr "X"; VStr "2024-01-01T10:00:00";
   VStr "Ana"; VStr "Paz"; VStr "Pendiente"].

(** ** The driver calls of a run *)

(** The keyword arguments [get_pool] passes to [aiomysql.create_pool]. *)
Definition create_args (cfg : config) : pool_args :=
  mk_pool_args (DB_HOST cfg) (DB_PORT cfg) (DB_USER cfg) (DB_PASSWORD cfg)
    (DB_NAME cfg) true.

(** The statement an [execute] call sent, with its parameters. *)
Definition sent (ev : event) : option (string * option (list value)) :=
  match ev with
  | EvExecute _ query params => Some (query, params)
  | _ => None
  end.

(** A computation that sends the statements [qs], in this order and nothing
    else: a run sends an initial part of them, and all of them when it
    returns. *)
Definition sends {S A} (m : world S → (exn + A) * world S)
    (qs : list (string * option (list value))) : Prop :=
  ∀ w r w', m w = (r, w') →
    ∃ delta, log w' = log w ++ delta
      ∧ omap sent delta `prefix_of` qs
      ∧ (∀ a, r = inr a → omap sent delta = qs).

(** Where the process stands with the pool: no connection taken, a
    connection taken, a cursor opened on it, a statement run on the cursor,
    its rows fetched. *)
Inductive conn_state :=
| Idle
| Held (p : pool_handle) (c : conn_handle)
| Open (p : pool_handle) (c : conn_handle) (k : cursor_handle)
| Executed (p : pool_handle) (c : conn_handle) (k : cursor_handle)
| Fetched (p : pool_handle) (c : conn_handle) (k : cursor_handle).

(** The order in which the driver is meant to be called: a cursor is opened
    on the connection taken, one statement is run on it, rows are fetched
    after the statement, the cursor is closed before its connection goes
    back, and the pool is created and closed with no connection taken.
    [None] is a call out of order. *)
Definition protocol_step (st : conn_state) (ev : event) : option conn_state :=
  match ev, st with
  | EvCreatePool _, Idle | EvPoolClose _, Idle | EvWaitClosed _, Idle =>
      Some Idle
  | EvAcquire p c, Idle => Some (Held p c)
  | EvCursor c k, Held p c' =>
      if decide (c = c') then Some (Open p c k) else None
  | EvExecute k _ _, Open p c k' =>
      if decide (k = k') then Some (Executed p c k) else None
  | EvFetchall k, Executed p c k' =>
      if decide (k = k') then Some (Fetched p c k) else None
  | EvCursorClose k, Executed p c k' | EvCursorClose k, Fetched p c k' =>
      if decide (k = k') then Some (Held p c) else None
  | EvRelease p c, Held p' c' =>
      if decide (p = p' ∧ c = c') then Some Idle else None
  | _, _ => None
  end.

Fixpoint protocol (st : conn_state) (l : list event) : option conn_state :=
  match l with
  | [] => Some st
  | ev :: l' => protocol_step st ev ≫= λ st', protocol st' l'
  end.

(** ** Handlers as coroutines

    The handlers are coroutines ([async def]), and the event loop runs
    others while one waits for the driver.  A coroutine is finished with an
    outcome, or suspended; resumed on the state [w] of the process it
    continues as [next w] and leaves the state [after w], having run up to
    its next suspension.  Every [await] of the driver is taken as a point
    where the event loop may run another task.  Where the driver answers
    at once the loop does not, which is the schedule that resumes the same
    task again: the schedules of the model include those of the program. *)
Inductive coro (S A : Type) : Type :=
| Done (r : exn + A)
| Await (next : world S → coro S A) (after : world S → world S).
Arguments Done {S A}.
Arguments Await {S A}.

Definition await {S A} (resume : world S → coro S A * world S) : coro S A :=
  Await (λ w, (resume w).1) (λ w, (resume w).2).

(** What follows a coroutine, whatever its outcome. *)
Fixpoint co_then {S A B} (c : coro S A) (k : exn + A → coro S B)
    : coro S B :=
  match c with
  | Done r => k r
  | Await next after => Await (λ w, co_then (next w) k) after
  end.

Definition co_bind {S A B} (c : coro S A) (k : A → coro S B) : coro S B :=
  co_then c (λ r, match r with inr a => k a | inl e => Done (inl e) end).

(** A coroutine run to its end with nothing else scheduled in between. *)
Fixpoint co_run {S A} (c : coro S A) (w : world S) : (exn + A) * world S :=
  match c with
  | Done r => (r, w)
  | Await next after => co_run (next w) (after w)
  end.

(** [await] of a driver call. *)
Definition co_call {S A} (ev : event) (f : S → (string + A) * S)
    : coro S A :=
  await (λ w, let '(r, w') := call ev f w in (Done r, w')).

Section Coroutines.
Context {S : Type} (sql : aiomysql S) `{Pydantic} (cfg : config).

(** [get_pool]: the test of [pool] and the call of [create_pool] are one
    step; the assignment to [pool] is made when [create_pool] has answered,
    after whatever ran in between. *)
Definition get_pool_co : coro S pool_handle :=
  await (λ w,
    match pool w with
    | Some p => (Done (inr p), w)
    | None =>
        let args := create_args cfg in
        match create_pool sql args (driver w) with
        | (inr p, s) =>
            (await (λ w', (Done (inr p),
                           mk_world (Some p) (driver w') (log w'))),
             mk_world (pool w) s (log w ++ [EvCreatePool args]))
        | (inl msg, s) =>
            (Done (inl (DriverError msg)),
             mk_world (pool w) s (log w ++ [EvCreatePool args]))
        end
    end).

Definition startup_co : coro S unit :=
  co_bind get_pool_co (λ _, Done (inr tt)).

Definition shutdown_co : coro S unit :=
  await (λ w,
    match pool w with
    | Some p =>
        (co_call (EvWaitClosed p) (wait_closed sql p),
         mk_world (pool w) (pool_close sql p (driver w))
           (log w ++ [EvPoolClose p]))
    | None => (Done (inr tt), w)
    end).

Definition with_acquire_co {A} (p : pool_handle)
    (body : conn_handle → coro S A) : coro S A :=
  await (λ w,
    match acquire sql p (driver w) with
    | (inl msg, s) =>
        (Done (inl (DriverError msg)), mk_world (pool w) s (log w))
    | (inr c, s) =>
        (co_then (body c) (λ r,
           await (λ w', (Done r,
                         mk_world (pool w') (release sql p c (driver w'))
                           (log w' ++ [EvRelease p c])))),
         mk_world (pool w) s (log w ++ [EvAcquire p c]))
    end).

Definition with_cursor_co {A} (c : conn_handle)
    (body : cursor_handle → coro S A) : coro S A :=
  await (λ w,
    match cursor sql c (driver w) with
    | (inl msg, s) =>
        (Done (inl (DriverError msg)), mk_world (pool w) s (log w))
    | (inr k, s) =>
        (co_then (body k) (λ r,
           co_then (co_call (EvCursorClose k) (cursor_close sql k)) (λ r',
             Done match r' with inr _ => r | inl e => inl e end)),
         mk_world (pool w) s (log w ++ [EvCursor c k]))
    end).

Definition ejecutar_consulta_co (query : string)
    (params : option (list value))
    : coro S (list row * option (list column)) :=
  co_bind get_pool_co (λ pool_obj,
    with_acquire_co pool_obj (λ conn,
      with_cursor_co conn (λ cursor,
        co_bind (co_call (EvExecute cursor query params)
                   (execute sql cursor query params)) (λ _,
          await (λ w,
            match call (EvFetchall cursor) (fetchall sql cursor) w with
            | (inr rows, w') =>
                (Done (inr (rows, description sql cursor (driver w'))), w')
            | (inl e, w') => (Done (inl e), w')
            end))))).

Definition listar_repartidores_co : coro S (list Repartidor.t) :=
  co_bind (ejecutar_consulta_co "CALL sp_cbox_listar_repartidor()" None)
    (λ '(rows, description),
       Done match column_names description with
            | inl e => inl e
            | inr column_names =>
                for_each
                  (λ row, validated
                            (Repartidor.model (py_dict (zip column_names row))))
                  rows
            end).

Definition listar_estados_envio_co : coro S (list EstadoEnvio.t) :=
  co_bind (ejecutar_consulta_co "CALL sp_cbox_listar_estado_envio()" None)
    (λ '(rows, description),
       Done match column_names description with
            | inl e => inl e
            | inr column_names =>
                for_each
                  (λ row, validated
                            (EstadoEnvio.model
                               (py_dict (zip column_names row))))
                  rows
            end).

Definition listar_envios_co : coro S (list EnvioOut.t) :=
  co_bind (ejecutar_consulta_co "CALL sp_listar_envio()" None)
    (λ '(rows, description),
       Done match column_names description with
            | inl e => inl e
            | inr column_names => for_each (envio_out column_names) rows
            end).

Definition obtener_envio_co (envio_id : Z) : coro S EnvioOut.t :=
  co_bind (ejecutar_consulta_co "CALL sp_listar_envio_por_id(%s)"
             (Some [VInt envio_id]))
    (λ '(rows, description),
       Done match rows with
            | [] => inl (HTTPException 404 "Envío no encontrado")
            | row0 :: _ =>
                match column_names description with
                | inl e => inl e
                | inr column_names => envio_out column_names row0
                end
            end).

Definition crear_envio_co (envio : EnvioCreate.t) : coro S Envio.t :=
  co_bind (ejecutar_consulta_co "CALL sp_crear_envio(%s, %s, %s, %s, %s, %s)"
             (Some (envio_params envio))) (λ _,
    co_bind (ejecutar_consulta_co "SELECT LAST_INSERT_ID()" None)
      (λ '(rows, _),
         Done match first_cell rows with
              | inl e => inl e
              | inr last_id => validated (Envio.model last_id envio)
              end)).

Definition actualizar_envio_co (envio_id : Z) (envio : EnvioCreate.t)
    : coro S Envio.t :=
  co_bind (ejecutar_consulta_co
             "CALL sp_actualizar_envio(%s, %s, %s, %s, %s, %s, %s)"
             (Some (envio_params envio ++ [VInt envio_id]))) (λ _,
    Done (validated (Envio.model (VInt envio_id) envio))).

Definition eliminar_envio_co (envio_id : Z) : coro S string :=
  co_bind (ejecutar_consulta_co "CALL sp_eliminar_envio(%s)"
             (Some [VInt envio_id])) (λ _,
    Done (inr ("Envío con ID " +:+ py_str envio_id
               +:+ " eliminado correctamente."))).

(** A coroutine with its response dropped. *)
Definition co_void {A} (c : coro S A) : coro S unit :=
  co_then c (λ r, Done match r with inr _ => inr tt | inl e => inl e end).

(** The coroutine the server starts for an event or a request. *)
Definition serve_co (r : request) : coro S unit :=
  match r with
  | Startup => startup_co
  | Shutdown => shutdown_co
  | GetRoot => Done (inr tt)
  | GetRepartidores => co_void listar_repartidores_co
  | GetEstadosEnvio => co_void listar_estados_envio_co
  | GetEnvios => co_void listar_envios_co
  | GetEnvio envio_id => co_void (obtener_envio_co envio_id)
  | PostEnvio envio => co_void (crear_envio_co envio)
  | PutEnvio envio_id envio => co_void (actualizar_envio_co envio_id envio)
  | DeleteEnvio envio_id => co_void (eliminar_envio_co envio_id)
  end.
End Coroutines.

(** *** The event loop *)

(** The event loop resumes task [i]; a task that has finished, or a
    number that is no task, leaves everything as it is. *)
Definition resume_at {S} (i : nat) (st : list (coro S unit) * world S)
    : list (coro S unit) * world S :=
  match st.1 !! i with
  | Some (Await next after) => (<[i := next st.2]> st.1, after st.2)
  | _ => st
  end.

(** The tasks and the state after the event loop has resumed the tasks of
    [schedule] in turn.  A task that has not been resumed yet has not
    started. *)
Definition interleave {S} (schedule : list nat)
    (st : list (coro S unit) * world S) : list (coro S unit) * world S :=
  foldl (λ st i, resume_at i st) st schedule.

(** A coroutine that, resumed with [pool] set to [p], leaves it so,
    creates no pool, and goes on as such a coroutine. *)
Fixpoint pool_safe {S A} (p : pool_handle) (c : coro S A) : Prop :=
  match c with
  | Done _ => True
  | Await next after =>
      ∀ w, pool w = Some p →
        pool (after w) = Some p
        ∧ creations (log (after w)) = creations (log w)
        ∧ pool_safe p (next w)
  end.

(** A coroutine whose own driver calls are in order from the state [st]
    of its connection on, whatever the states of the process it is resumed
    on, and which finishes with its connection in a state of [fin]. *)
Fixpoint obeys {S A} (st : conn_state) (fin : conn_state → Prop)
    (c : coro S A) : Prop :=
  match c with
  | Done _ => fin st
  | Await next after =>
      ∀ w, ∃ delta st',
        log (after w) = log w ++ delta
        ∧ protocol st delta = Some st'
        ∧ obeys st' fin (next w)
  end.

(** The driver calls task [i] makes while the event loop follows
    [schedule]: what each of its resumptions adds to the log. *)
Fixpoint own_events {S} (i : nat) (schedule : list nat)
    (st : list (coro S unit) * world S) : list event :=
  match schedule with
  | [] => []
  | j :: schedule' =>
      let st' := resume_at j st in
      (if decide (j = i) then drop (length (log st.2)) (log st'.2) else [])
      ++ own_events i schedule' st'
  end.

(** A server that numbers the pools, connections and cursors it hands
    out, so that no two of them are the same. *)
Definition numbering_server : aiomysql nat := {|
  create_pool _ n := (inr n, Datatypes.S n);
  acquire _ n := (inr n, Datatypes.S n);
  release _ _ n := n;
  cursor _ n := (inr n, Datatypes.S n);
  execute _ _ _ n := (inr tt, n);
  fetchall _ n := (inr [], n);
  description _ _ := Some [];
  cursor_close _ n := (inr tt, n);
  pool_close _ n := n;
  wait_closed _ n := (inr tt, n)
|}.

(** ** The fields of the other models *)

Definition Repartidor_fields : list (string * field_type) :=
  [("repartidor_id", TInt); ("nombre", TStr); ("apellido", TStr);
   ("telefono", TStr)].

Definition EstadoEnvio_fields : list (string * field_type) :=
  [("estado_id", TInt); ("nombre_estado", TStr)].

(** The fields of a model that the keyword arguments fail: each field
    that is absent or whose value its validator rejects, in the order of
    the fields. *)
Definition failing `{Pydantic} (fields : list (string * field_type))
    (kwargs : gmap string value) : list (string * field_error) :=
  flat_map (λ '(name, ty),
    match kwargs !! name with
    | None => [(name, Missing)]
    | Some v =>
        match coerce ty v with
        | None => [(name, Invalid)]
        | Some _ => []
        end
    end) fields.

Definition errors_of {A} (v : validation A) : list (string * field_error) :=
  match v with inl errs => errs | inr _ => [] end.

(** A validation that fails has something to report. *)
Definition reports {A} (v : validation A) : Prop := v ≠ inl [].

(** ** More servers *)

(** A server that cannot be reached: creating the pool raises. *)
Definition unreachable_server : aiomysql unit := {|
  create_pool _ s := (inl "can't connect to MySQL server", s);
  acquire _ s := (inl "pool is closed", s);
  release _ _ s := s;
  cursor _ s := (inl "no connection", s);
  execute _ _ _ s := (inl "no connection", s);
  fetchall _ s := (inl "no connection", s);
  description _ _ := None;
  cursor_close _ s := (inr tt, s);
  pool_close _ s := s;
  wait_closed _ s := (inr tt, s)
|}.

(** A server that answers every statement with an empty result set of no
    columns. *)
Definition empty_server : aiomysql result_set :=
  fixed_driver (λ _ _, inr ([], Some [])).

(** * Properties *)

(** ** The query helper *)

Section QueryHelper.
Context {S : Type} (sql : aiomysql S) (cfg : config).

Lemma get_pool_cached (w : world S) p :
  pool w = Some p → get_pool sql cfg w = (inr p, w).
Proof. intros Hp. unfold get_pool. by rewrite Hp. Qed.

Lemma ejecutar_consulta_pool query params (w w' : world S) r p :
  ejecutar_consulta sql cfg query params w = (r, w') →
  pool w = Some p → pool w' = Some p.
Proof.
  unfold ejecutar_consulta, with_acquire, with_cursor, bind, call, get_pool.
  intros Hrun Hp. rewrite Hp in Hrun.
  repeat (case_match; simplify_eq/=); done.
Qed.

Lemma ejecutar_consulta_raises query params (w w' : world S) e :
  ejecutar_consulta sql cfg query params w = (inl e, w') →
  ∃ msg, e = DriverError msg.
Proof.
  unfold ejecutar_consulta, with_acquire, with_cursor, bind, call, get_pool.
  intros Hrun.
  repeat (case_match; simplify_eq/=); eauto.
Qed.

(** A query that returns has run acquire, cursor, execute, fetchall,
    close and release in this order, each on the state the previous call
    left, and returns what [fetchall] gave with the description the cursor
    had then. *)
Lemma ejecutar_consulta_returns query params (w w' : world S) rows desc :
  ejecutar_consulta sql cfg query params w = (inr (rows, desc), w') →
  ∃ w0 p c k s1 s2 s3 s4 s5,
    get_pool sql cfg w = (inr p, w0) ∧
    acquire sql p (driver w0) = (inr c, s1) ∧
    cursor sql c s1 = (inr k, s2) ∧
    execute sql k query params s2 = (inr tt, s3) ∧
    fetchall sql k s3 = (inr rows, s4) ∧
    desc = description sql k s4 ∧
    cursor_close sql k s4 = (inr tt, s5) ∧
    w' = mk_world (pool w0) (release sql p c s5)
           (log w0 ++ query_calls p c k query params).
Proof.
  intros Hrun. unfold ejecutar_consulta, bind in Hrun.
  destruct (get_pool sql cfg w) as [[e|p] w0] eqn:Hpool; [by simplify_eq|].
  unfold with_acquire, with_cursor, bind, call in Hrun.
  repeat (case_match; simplify_eq/=).
  repeat match goal with u : unit |- _ => destruct u end.
  eexists _, _, _, _, _, _, _, _, _.
  split_and!; [reflexivity || eassumption ..|].
  unfold query_calls. by rewrite <- !app_assoc.
Qed.

Lemma get_pool_log (w w0 : world S) r :
  get_pool sql cfg w = (r, w0) →
  ∃ pre, log w0 = log w ++ pre ∧ pool_traffic pre = []
         ∧ statements pre = []
         ∧ creations pre = match pool w with Some _ => 0 | None => 1 end%nat.
Proof.
  unfold get_pool. intros Hrun.
  repeat (case_match; simplify_eq/=);
    first [ by exists []; rewrite app_nil_r | by eexists [_] ].
Qed.

(** A query whose driver calls all return runs to its end: it returns the
    rows [fetchall] gave with the description the cursor had then, on the
    state the release left. *)
Lemma ejecutar_consulta_runs query params (w w0 : world S)
    p c k s1 s2 s3 rows s4 s5 :
  get_pool sql cfg w = (inr p, w0) →
  acquire sql p (driver w0) = (inr c, s1) →
  cursor sql c s1 = (inr k, s2) →
  execute sql k query params s2 = (inr tt, s3) →
  fetchall sql k s3 = (inr rows, s4) →
  cursor_close sql k s4 = (inr tt, s5) →
  ejecutar_consulta sql cfg query params w
  = (inr (rows, description sql k s4),
     mk_world (pool w0) (release sql p c s5)
       (log w0 ++ query_calls p c k query params)).
Proof.
  intros Hg Hacq Hcur Hex Hfetch Hclose.
  unfold ejecutar_consulta, with_acquire, with_cursor, bind, call.
  rewrite Hg, Hacq. simpl. rewrite Hcur. simpl. rewrite Hex. simpl.
  rewrite Hfetch. simpl. rewrite Hclose. simpl.
  unfold query_calls. by rewrite <- !app_assoc.
Qed.

End QueryHelper.

(** ** The pool *)

(** *** Coroutines run alone *)

Lemma co_run_then {S A B} (c : coro S A) (k : exn + A → coro S B) w :
  co_run (co_then c k) w = let '(r, w') := co_run c w in co_run (k r) w'.
Proof. revert w. induction c as [r|next IH after]; intros w; simpl; auto. Qed.

Lemma co_run_bind {S A B} (c : coro S A) (k : A → coro S B) w :
  co_run (co_bind c k) w = bind (co_run c) (λ a, co_run (k a)) w.
Proof.
  unfold co_bind, bind. rewrite co_run_then.
  by destruct (co_run c w) as [[e|a] w'].
Qed.

Lemma co_run_call {S A} ev (f : S → (string + A) * S) w :
  co_run (co_call ev f) w = call ev f w.
Proof. unfold co_call, await. simpl. by destruct (call ev f w). Qed.

Lemma pool_safe_then {S A B} p (c : coro S A) (k : exn + A → coro S B) :
  pool_safe p c → (∀ r, pool_safe p (k r)) → pool_safe p (co_then c k).
Proof.
  intros Hc Hk. induction c as [r|next IH after]; simpl in *; [done|].
  intros w Hp. destruct (Hc w Hp) as (? & ? & ?). split_and!; auto.
Qed.

Lemma pool_safe_bind {S A B} p (c : coro S A) (k : A → coro S B) :
  pool_safe p c → (∀ a, pool_safe p (k a)) → pool_safe p (co_bind c k).
Proof. intros Hc Hk. apply pool_safe_then; [done|]. by intros [e|a]. Qed.

Lemma pool_safe_call {S A} p ev (f : S → (string + A) * S) :
  is_create_pool ev = false → pool_safe p (co_call ev f).
Proof.
  intros Hev w Hp. unfold call, creations. simpl.
  destruct (f (driver w)) as [[msg|a] s]; simpl;
    rewrite filter_app, length_app; simpl;
    (rewrite filter_cons_False by (rewrite Hev; auto)); simpl;
    split_and!; auto; lia.
Qed.

Lemma protocol_app st l1 l2 :
  protocol st (l1 ++ l2) = protocol st l1 ≫= λ st', protocol st' l2.
Proof.
  revert st. induction l1 as [|ev l1 IH]; intros st; simpl; [done|].
  destruct (protocol_step st ev) as [st'|]; simpl; [apply IH|done].
Qed.

Lemma obeys_then {S A B} st (mid fin : conn_state → Prop) (c : coro S A)
    (k : exn + A → coro S B) :
  obeys st mid c → (∀ r st', mid st' → obeys st' fin (k r)) →
  obeys st fin (co_then c k).
Proof.
  intros Hc Hk. revert st Hc.
  induction c as [r|next IH after]; intros st Hc; simpl in *; [by apply Hk|].
  intros w. destruct (Hc w) as (delta & st' & ? & ? & ?).
  exists delta, st'. split_and!; auto.
Qed.

Lemma obeys_call {S A} st st' ev (f : S → (string + A) * S) :
  protocol_step st ev = Some st' → obeys st (.= st') (co_call ev f).
Proof.
  intros Hstep w. exists [ev], st'. unfold call. simpl.
  destruct (f (driver w)) as [[msg|a] s]; simpl; by rewrite Hstep.
Qed.

Lemma creations_snoc l ev :
  is_create_pool ev = false → creations (l ++ [ev]) = creations l.
Proof.
  intros Hev. unfold creations. rewrite filter_app, length_app. simpl.
  rewrite filter_cons_False by (rewrite Hev; auto). simpl. lia.
Qed.

Section PoolLifecycle.
Context {S : Type} (sql : aiomysql S) `{Pydantic} (cfg : config).

(** Run with nothing in between, the coroutines are the handlers. *)
Lemma co_run_get_pool w : co_run (get_pool_co sql cfg) w = get_pool sql cfg w.
Proof.
  unfold get_pool_co, get_pool, await, create_args. simpl.
  destruct (pool w) as [p|]; simpl; [done|].
  destruct (create_pool sql _ (driver w)) as [[msg|p] s]; by simpl.
Qed.

Lemma bind_ext {A B} (m m' : world S → (exn + A) * world S)
    (k k' : A → world S → (exn + B) * world S) w :
  (∀ w, m w = m' w) → (∀ a w, k a w = k' a w) → bind m k w = bind m' k' w.
Proof.
  intros Hm Hk. unfold bind. rewrite Hm.
  by destruct (m' w) as [[e|a] w'].
Qed.

Lemma co_run_with_acquire {A} p (body : conn_handle → coro S A)
    (body' : conn_handle → world S → (exn + A) * world S) w :
  (∀ c w, co_run (body c) w = body' c w) →
  co_run (with_acquire_co sql p body) w = with_acquire sql p body' w.
Proof.
  intros Hbody. unfold with_acquire_co, with_acquire, await. simpl.
  destruct (acquire sql p (driver w)) as [[msg|c] s]; simpl; [done|].
  rewrite co_run_then, Hbody. by destruct (body' c _) as [r w'].
Qed.

Lemma co_run_with_cursor {A} c (body : cursor_handle → coro S A)
    (body' : cursor_handle → world S → (exn + A) * world S) w :
  (∀ k w, co_run (body k) w = body' k w) →
  co_run (with_cursor_co sql c body) w = with_cursor sql c body' w.
Proof.
  intros Hbody. unfold with_cursor_co, with_cursor, await. simpl.
  destruct (cursor sql c (driver w)) as [[msg|k] s]; simpl; [done|].
  rewrite co_run_then, Hbody. destruct (body' k _) as [r w'].
  simpl. by destruct (call _ _ w') as [[e|[]] w''].
Qed.

Lemma co_run_ejecutar_consulta query params w :
  co_run (ejecutar_consulta_co sql cfg query params) w
  = ejecutar_consulta sql cfg query params w.
Proof.
  unfold ejecutar_consulta_co, ejecutar_consulta. rewrite co_run_bind.
  apply bind_ext; [apply co_run_get_pool|]. clear w. intros p w.
  apply co_run_with_acquire. clear w. intros c w.
  apply co_run_with_cursor. clear w. intros k w.
  rewrite co_run_bind. apply bind_ext; [apply co_run_call|].
  clear w. intros _ w. unfold bind, await. simpl.
  by destruct (call _ _ w) as [[e|rows] w'].
Qed.

Ltac handler_tail :=
  intros; unfold bind, lift, ret, raise; simpl; by repeat case_match.

Lemma co_run_listar_repartidores w :
  co_run (listar_repartidores_co sql cfg) w = listar_repartidores sql cfg w.
Proof.
  unfold listar_repartidores_co, listar_repartidores. rewrite co_run_bind.
  apply bind_ext; [apply co_run_ejecutar_consulta|]. intros [rows desc] w'.
  handler_tail.
Qed.

Lemma co_run_listar_estados_envio w :
  co_run (listar_estados_envio_co sql cfg) w
  = listar_estados_envio sql cfg w.
Proof.
  unfold listar_estados_envio_co, listar_estados_envio. rewrite co_run_bind.
  apply bind_ext; [apply co_run_ejecutar_consulta|]. intros [rows desc] w'.
  handler_tail.
Qed.

Lemma co_run_listar_envios w :
  co_run (listar_envios_co sql cfg) w = listar_envios sql cfg w.
Proof.
  unfold listar_envios_co, listar_envios. rewrite co_run_bind.
  apply bind_ext; [apply co_run_ejecutar_consulta|]. intros [rows desc] w'.
  handler_tail.
Qed.

Lemma co_run_obtener_envio envio_id w :
  co_run (obtener_envio_co sql cfg envio_id) w
  = obtener_envio sql cfg envio_id w.
Proof.
  unfold obtener_envio_co, obtener_envio. rewrite co_run_bind.
  apply bind_ext; [apply co_run_ejecutar_consulta|]. intros [rows desc] w'.
  handler_tail.
Qed.

Lemma co_run_crear_envio envio w :
  co_run (crear_envio_co sql cfg envio) w = crear_envio sql cfg envio w.
Proof.
  unfold crear_envio_co, crear_envio. rewrite co_run_bind.
  apply bind_ext; [apply co_run_ejecutar_consulta|]. intros _ w'.
  rewrite co_run_bind.
  apply bind_ext; [apply co_run_ejecutar_consulta|]. intros [rows desc] w''.
  handler_tail.
Qed.

Lemma co_run_actualizar_envio envio_id envio w :
  co_run (actualizar_envio_co sql cfg envio_id envio) w
  = actualizar_envio sql cfg envio_id envio w.
Proof.
  unfold actualizar_envio_co, actualizar_envio. rewrite co_run_bind.
  apply bind_ext; [apply co_run_ejecutar_consulta|]. by intros _ w'.
Qed.

Lemma co_run_eliminar_envio envio_id w :
  co_run (eliminar_envio_co sql cfg envio_id) w
  = eliminar_envio sql cfg envio_id w.
Proof.
  unfold eliminar_envio_co, eliminar_envio. rewrite co_run_bind.
  apply bind_ext; [apply co_run_ejecutar_consulta|]. by intros _ w'.
Qed.

Lemma co_run_startup w : co_run (startup_co sql cfg) w = startup sql cfg w.
Proof.
  unfold startup_co, startup. rewrite co_run_bind.
  apply bind_ext; [apply co_run_get_pool|]. by intros _ w'.
Qed.

Lemma co_run_shutdown w : co_run (shutdown_co sql) w = shutdown sql w.
Proof.
  unfold shutdown_co, shutdown, await, bind. simpl.
  destruct (pool w) as [p|]; [|done]. simpl.
  unfold call. simpl. by destruct (wait_closed sql p _) as [[msg|[]] s].
Qed.

Lemma co_run_void {A} (c : coro S A) w : (co_run (co_void c) w).2 = (co_run c w).2.
Proof.
  unfold co_void. rewrite co_run_then. by destruct (co_run c w) as [[e|a] w'].
Qed.

(** A handler resumed until it has finished, with no other task in
    between, is the handler run as one piece. *)
Lemma co_run_serve r w : (co_run (serve_co sql cfg r) w).2 = serve sql cfg r w.
Proof.
  destruct r; cbn [serve_co serve]; rewrite ?co_run_void.
  - by rewrite co_run_startup.
  - by rewrite co_run_shutdown.
  - done.
  - by rewrite co_run_listar_repartidores.
  - by rewrite co_run_listar_estados_envio.
  - by rewrite co_run_listar_envios.
  - by rewrite co_run_obtener_envio.
  - by rewrite co_run_crear_envio.
  - by rewrite co_run_actualizar_envio.
  - by rewrite co_run_eliminar_envio.
Qed.

(** *** The pool under interleaving *)

Lemma pool_safe_get_pool p : pool_safe p (get_pool_co sql cfg).
Proof. intros w Hp. simpl. by rewrite Hp. Qed.

Lemma pool_safe_with_acquire {A} p p' (body : conn_handle → coro S A) :
  (∀ c, pool_safe p (body c)) → pool_safe p (with_acquire_co sql p' body).
Proof.
  intros Hbody w Hp. cbn -[co_then co_call pool_safe].
  destruct (acquire sql p' (driver w)) as [[msg|c] s];
    cbn -[co_then co_call pool_safe]; [done|].
  split_and!; [done|by apply creations_snoc|].
  apply pool_safe_then; [done|]. intros r w' Hp'. simpl.
  split_and!; [done|by apply creations_snoc|done].
Qed.

Lemma pool_safe_with_cursor {A} p c (body : cursor_handle → coro S A) :
  (∀ k, pool_safe p (body k)) → pool_safe p (with_cursor_co sql c body).
Proof.
  intros Hbody w Hp. cbn -[co_then co_call pool_safe].
  destruct (cursor sql c (driver w)) as [[msg|k] s];
    cbn -[co_then co_call pool_safe]; [done|].
  split_and!; [done|by apply creations_snoc|].
  apply pool_safe_then; [done|]. intros r.
  apply pool_safe_then; [by apply pool_safe_call|done].
Qed.

Lemma pool_safe_ejecutar_consulta p query params :
  pool_safe p (ejecutar_consulta_co sql cfg query params).
Proof.
  apply pool_safe_bind; [apply pool_safe_get_pool|]. intros p'.
  apply pool_safe_with_acquire. intros c.
  apply pool_safe_with_cursor. intros k.
  apply pool_safe_bind; [by apply pool_safe_call|]. intros _ w Hp.
  unfold call. simpl.
  destruct (fetchall sql k (driver w)) as [[msg|rows] s]; simpl;
    by rewrite creations_snoc.
Qed.

Lemma pool_safe_shutdown p : pool_safe p (shutdown_co sql).
Proof.
  intros w Hp. cbn -[co_call pool_safe]. rewrite Hp.
  cbn -[co_call pool_safe].
  split_and!; [done|by apply creations_snoc|by apply pool_safe_call].
Qed.

Lemma pool_safe_serve p r : pool_safe p (serve_co sql cfg r).
Proof.
  assert (Hone : ∀ B query params
            (k : list row * option (list column) → exn + B),
            pool_safe p
              (co_bind (ejecutar_consulta_co sql cfg query params)
                 (λ a, Done (k a)))).
  { intros B query params k.
    apply pool_safe_bind; [apply pool_safe_ejecutar_consulta|done]. }
  destruct r; cbn [serve_co]; try done; unfold co_void;
    try (apply pool_safe_then; [|done]).
  - apply pool_safe_bind; [apply pool_safe_get_pool|done].
  - apply pool_safe_shutdown.
  - apply pool_safe_bind; [apply pool_safe_ejecutar_consulta|]. by intros [].
  - apply pool_safe_bind; [apply pool_safe_ejecutar_consulta|]. by intros [].
  - apply pool_safe_bind; [apply pool_safe_ejecutar_consulta|]. by intros [].
  - apply pool_safe_bind; [apply pool_safe_ejecutar_consulta|]. by intros [].
  - apply pool_safe_bind; [apply pool_safe_ejecutar_consulta|]. intros _.
    apply pool_safe_bind; [apply pool_safe_ejecutar_consulta|]. by intros [].
  - apply pool_safe_bind; [apply pool_safe_ejecutar_consulta|done].
  - apply pool_safe_bind; [apply pool_safe_ejecutar_consulta|done].
Qed.

Lemma resume_at_keeps_pool i (tasks : list (coro S unit)) w p :
  pool w = Some p → Forall (pool_safe p) tasks →
  let st := resume_at i (tasks, w) in
  pool st.2 = Some p ∧ creations (log st.2) = creations (log w)
  ∧ Forall (pool_safe p) st.1.
Proof.
  intros Hp Hall. unfold resume_at. simpl.
  destruct (tasks !! i) as [[r|next after]|] eqn:Hi; simpl; [done| |done].
  pose proof (proj1 (Forall_lookup _ _) Hall _ _ Hi) as Hsafe.
  destruct (Hsafe w Hp) as (? & ? & ?). split_and!; [done..|].
  by apply Forall_insert.
Qed.

Lemma interleave_keeps_pool schedule (tasks : list (coro S unit)) w p :
  pool w = Some p → Forall (pool_safe p) tasks →
  let st := interleave schedule (tasks, w) in
  pool st.2 = Some p ∧ creations (log st.2) = creations (log w).
Proof.
  revert tasks w. induction schedule as [|i schedule IH]; intros tasks w Hp Hall;
    [done|].
  destruct (resume_at_keeps_pool i tasks w p Hp Hall) as (Hp1 & Hc1 & Hall1).
  simpl. destruct (resume_at i (tasks, w)) as [tasks1 w1]. simpl in *.
  destruct (IH tasks1 w1 Hp1 Hall1) as [Hp2 Hc2]. split; [done|congruence].
Qed.

(** *** The order of the driver calls under interleaving *)

Lemma obeys_get_pool : obeys Idle (.= Idle) (get_pool_co sql cfg).
Proof.
  intros w. cbn -[obeys]. destruct (pool w) as [p|]; cbn -[obeys].
  { exists [], Idle. by rewrite app_nil_r. }
  destruct (create_pool sql _ (driver w)) as [[msg|p] s]; cbn -[obeys];
    exists [EvCreatePool (create_args cfg)], Idle; split_and!; try done.
  intros w'. exists [], Idle. by rewrite app_nil_r.
Qed.

Lemma obeys_shutdown : obeys Idle (.= Idle) (shutdown_co sql).
Proof.
  intros w. cbn -[obeys co_call]. destruct (pool w) as [p|];
    cbn -[obeys co_call].
  - exists [EvPoolClose p], Idle. split_and!; [done..|].
    by apply obeys_call.
  - exists [], Idle. by rewrite app_nil_r.
Qed.

Lemma obeys_with_acquire {A} p (body : conn_handle → coro S A) :
  (∀ c, obeys (Held p c) (.= Held p c) (body c)) →
  obeys Idle (.= Idle) (with_acquire_co sql p body).
Proof.
  intros Hbody w. cbn -[obeys co_then].
  destruct (acquire sql p (driver w)) as [[msg|c] s]; cbn -[obeys co_then].
  { exists [], Idle. by rewrite app_nil_r. }
  exists [EvAcquire p c], (Held p c). split_and!; [done..|].
  apply (obeys_then _ (.= Held p c)); [done|]. intros r st' -> w'.
  exists [EvRelease p c], Idle. simpl. by rewrite decide_True.
Qed.

Lemma obeys_with_cursor {A} p c (body : cursor_handle → coro S A) :
  (∀ k, obeys (Open p c k)
          (λ st, st = Executed p c k ∨ st = Fetched p c k) (body k)) →
  obeys (Held p c) (.= Held p c) (with_cursor_co sql c body).
Proof.
  intros Hbody w. cbn -[obeys co_then co_call].
  destruct (cursor sql c (driver w)) as [[msg|k] s];
    cbn -[obeys co_then co_call].
  { exists [], (Held p c). by rewrite app_nil_r. }
  exists [EvCursor c k], (Open p c k). split_and!.
  { done. }
  { simpl. by rewrite decide_True. }
  eapply obeys_then; [apply Hbody|]. intros r st' Hst'.
  apply (obeys_then _ (.= Held p c)); [|by intros r' st'' ->].
  apply obeys_call. destruct Hst' as [->| ->]; simpl; by rewrite decide_True.
Qed.

Lemma obeys_ejecutar_consulta query params :
  obeys Idle (.= Idle) (ejecutar_consulta_co sql cfg query params).
Proof.
  apply (obeys_then _ (.= Idle)); [apply obeys_get_pool|].
  intros [e|p] st' ->; [done|].
  apply obeys_with_acquire. intros c.
  apply obeys_with_cursor. intros k.
  apply (obeys_then _ (.= Executed p c k)).
  { apply obeys_call. simpl. by rewrite decide_True. }
  intros [e|_] st' ->; [by left|]. intros w.
  exists [EvFetchall k], (Fetched p c k). unfold call. simpl.
  rewrite decide_True by done.
  destruct (fetchall sql k (driver w)) as [[msg|rows] s]; simpl; auto.
Qed.

Lemma obeys_serve r : obeys Idle (.= Idle) (serve_co sql cfg r).
Proof.
  assert (Hone : ∀ B query params
            (k : list row * option (list column) → coro S B),
            (∀ a, obeys Idle (.= Idle) (k a)) →
            obeys Idle (.= Idle)
              (co_bind (ejecutar_consulta_co sql cfg query params) k)).
  { intros B query params k Hk.
    apply (obeys_then _ (.= Idle)); [apply obeys_ejecutar_consulta|].
    by intros [e|a] st' ->. }
  destruct r; cbn [serve_co]; try done; unfold co_void;
    try (apply (obeys_then _ (.= Idle)); [|by intros ? ? ->]).
  - apply (obeys_then _ (.= Idle)); [apply obeys_get_pool|].
    by intros [e|a] st' ->.
  - apply obeys_shutdown.
  - apply Hone. by intros [].
  - apply Hone. by intros [].
  - apply Hone. by intros [].
  - apply Hone. by intros [].
  - apply Hone. intros _. apply Hone. by intros [].
  - by apply Hone.
  - by apply Hone.
Qed.

Lemma resume_at_obeys i j (tasks : list (coro S unit)) w st0 :
  (∀ c, tasks !! i = Some c → obeys st0 (.= Idle) c) →
  let st' := resume_at j (tasks, w) in
  ∃ st1,
    protocol st0
      (if decide (j = i) then drop (length (log w)) (log st'.2) else [])
    = Some st1
    ∧ ∀ c, st'.1 !! i = Some c → obeys st1 (.= Idle) c.
Proof.
  intros Hi st'. subst st'. unfold resume_at. cbn [fst snd].
  destruct (tasks !! j) as [[r|next after]|] eqn:Hj; cbn [fst snd].
  - exists st0. split; [|exact Hi]. case_decide; [|done]. by rewrite drop_all.
  - destruct (decide (j = i)) as [->|Hne].
    + destruct (Hi _ Hj w) as (delta & st1 & Hlog & Hdelta & Hnext).
      exists st1.
      split; [by rewrite Hlog, drop_app_length|].
      intros c. rewrite list_lookup_insert_eq by by eapply lookup_lt_Some.
      by intros [= <-].
    + exists st0. split; [done|].
      intros c. rewrite list_lookup_insert_ne by done. apply Hi.
  - exists st0. split; [|exact Hi]. case_decide; [|done]. by rewrite drop_all.
Qed.

Lemma own_events_obey i schedule (tasks : list (coro S unit)) w st0 :
  (∀ c, tasks !! i = Some c → obeys st0 (.= Idle) c) →
  ∃ st, protocol st0 (own_events i schedule (tasks, w)) = Some st
    ∧ ∀ c, (interleave schedule (tasks, w)).1 !! i = Some c →
        obeys st (.= Idle) c.
Proof.
  revert tasks w st0.
  induction schedule as [|j schedule IH]; intros tasks w st0 Hi.
  { by exists st0. }
  destruct (resume_at_obeys i j tasks w st0 Hi) as (st1 & Hst1 & Hi1).
  cbn [own_events]. change (interleave (j :: schedule) (tasks, w))
    with (interleave schedule (resume_at j (tasks, w))).
  cbn [snd] in *. destruct (resume_at j (tasks, w)) as [tasks1 w1].
  destruct (IH tasks1 w1 st1 Hi1) as (st & Hst & Hfin).
  exists st. split; [|exact Hfin]. by rewrite protocol_app, Hst1.
Qed.

(** C3. The first [get_pool], on a process whose [pool] is still [None]
    and with no other call of it under way, calls [create_pool] with the
    configured host, port, user, password and database name and with
    autocommit on, and stores the pool it gets.  From then on, whatever
    startup and shutdown events and requests arrive and however the event
    loop interleaves their handlers, the variable keeps that same pool,
    [get_pool] returns it without touching the driver, and no other pool
    is created. *)
Theorem pool_created_once_and_kept (w : world S) p s :
  pool w = None →
  create_pool sql
    (mk_pool_args (DB_HOST cfg) (DB_PORT cfg) (DB_USER cfg) (DB_PASSWORD cfg)
       (DB_NAME cfg) true) (driver w) = (inr p, s) →
  ∃ w1,
    get_pool sql cfg w = (inr p, w1) ∧
    co_run (get_pool_co sql cfg) w = (inr p, w1) ∧
    w1 = mk_world (Some p) s
           (log w ++ [EvCreatePool
                        (mk_pool_args (DB_HOST cfg) (DB_PORT cfg) (DB_USER cfg)
                           (DB_PASSWORD cfg) (DB_NAME cfg) true)]) ∧
    ∀ (rs : list request) (schedule : list nat),
      let w2 := (interleave schedule (serve_co sql cfg <$> rs, w1)).2 in
      pool w2 = Some p
      ∧ get_pool sql cfg w2 = (inr p, w2)
      ∧ co_run (get_pool_co sql cfg) w2 = (inr p, w2)
      ∧ creations (log w2) = (creations (log w) + 1)%nat.
Proof.
  intros Hnone Hcreate.
  assert (get_pool sql cfg w
          = (inr p, mk_world (Some p) s
                      (log w ++ [EvCreatePool
                         (mk_pool_args (DB_HOST cfg) (DB_PORT cfg)
                            (DB_USER cfg) (DB_PASSWORD cfg) (DB_NAME cfg)
                            true)]))) as Hfirst.
  { unfold get_pool. by rewrite Hnone, Hcreate. }
  eexists. split_and!; [exact Hfirst|by rewrite co_run_get_pool|reflexivity|].
  intros rs schedule w2.
  destruct (interleave_keeps_pool schedule (serve_co sql cfg <$> rs)
              (mk_world (Some p) s
                 (log w ++ [EvCreatePool
                    (mk_pool_args (DB_HOST cfg) (DB_PORT cfg) (DB_USER cfg)
                       (DB_PASSWORD cfg) (DB_NAME cfg) true)])) p eq_refl)
    as [Hp Hc].
  { apply Forall_fmap, Forall_forall. intros r _. apply pool_safe_serve. }
  assert (get_pool sql cfg w2 = (inr p, w2)) as Hcached
    by by apply get_pool_cached.
  split_and!; [done|done|by rewrite co_run_get_pool|].
  subst w2. rewrite Hc. unfold creations. simpl.
  rewrite filter_app, length_app. simpl. lia.
Qed.
End PoolLifecycle.

(** A handler run with nothing in between is one of the interleavings. *)
Lemma co_run_interleave {S} (c : coro S unit) (w : world S) :
  ∃ n, interleave (replicate n 0%nat) ([c], w)
       = ([Done (co_run c w).1], (co_run c w).2).
Proof.
  revert w. induction c as [r|next IH after]; intros w.
  - by exists 0%nat.
  - destruct (IH w (after w)) as [n Hn]. by exists (Datatypes.S n).
Qed.

(** ** Dictionaries built from rows *)

Lemma py_dict_snoc pairs k v :
  py_dict (pairs ++ [(k, v)]) = <[k := v]> (py_dict pairs).
Proof. unfold py_dict. by rewrite foldl_snoc. Qed.

(** A key is bound to the value of its last pair. *)
Lemma py_dict_lookup_last pairs i k v :
  pairs !! i = Some (k, v) →
  (∀ j kv, (i < j)%nat → pairs !! j = Some kv → kv.1 ≠ k) →
  py_dict pairs !! k = Some v.
Proof.
  revert i. induction pairs as [|[k' v'] pairs IH] using rev_ind;
    intros i Hi Hlast; [done|].
  rewrite py_dict_snoc.
  destruct (decide (i = length pairs)) as [->|Hne].
  - rewrite list_lookup_middle in Hi by done. simplify_eq.
    apply lookup_insert_eq.
  - assert (i < length pairs)%nat as Hlt.
    { apply lookup_lt_Some in Hi. rewrite length_app in Hi. simpl in Hi. lia. }
    rewrite lookup_app_l in Hi by done.
    rewrite lookup_insert_ne.
    + apply (IH i Hi). intros j kv Hj Hkv. apply (Hlast j kv Hj).
      rewrite lookup_app_l; [done|]. by eapply lookup_lt_Some.
    + intros ->. apply (Hlast (length pairs) (k, v') Hlt); [|done].
      by rewrite list_lookup_middle.
Qed.

Lemma py_dict_lookup_None pairs k :
  (∀ j kv, pairs !! j = Some kv → kv.1 ≠ k) → py_dict pairs !! k = None.
Proof.
  induction pairs as [|[k' v'] pairs IH] using rev_ind; intros Hno; [done|].
  rewrite py_dict_snoc, lookup_insert_ne.
  - apply IH. intros j kv Hj. apply (Hno j).
    rewrite lookup_app_l; [done|]. by eapply lookup_lt_Some.
  - intros ->. apply (Hno (length pairs) (k, v')); [|done].
    by rewrite list_lookup_middle.
Qed.

(** The dictionary of a row binds a column name to the value at the
    position of the last column of that name. *)
Lemma py_dict_zip_lookup (names : list string) (row : row) i name v :
  names !! i = Some name → row !! i = Some v → last_column names row i →
  py_dict (zip names row) !! name = Some v.
Proof.
  intros Hn Hv Hlast. apply (py_dict_lookup_last _ i).
  - by apply lookup_zip_with_Some; eexists _, _.
  - intros j [k' v'] Hij Hj Heq. simpl in Heq. subst k'.
    apply lookup_zip_with_Some in Hj as (x & y & [= <- <-] & Hx & Hy).
    by apply (Hlast j name Hij (lookup_lt_Some _ _ _ Hy) Hn).
Qed.

(** A name that is no column of the row is no key of its dictionary. *)
Lemma py_dict_zip_absent (names : list string) (row : row) name :
  name ∉ names → py_dict (zip names row) !! name = None.
Proof.
  intros Hno. apply py_dict_lookup_None.
  intros j [k' v'] Hj Heq. simpl in Heq. subst k'.
  apply lookup_zip_with_Some in Hj as (x & y & [= <- <-] & Hx & Hy).
  apply Hno. by eapply list_elem_of_lookup_2.
Qed.

(** ** Validation *)

Ltac fields_cases Hin :=
  repeat (apply elem_of_cons in Hin as [Hin|Hin]; [simplify_eq|]);
  try (by apply elem_of_nil in Hin).

Section Validation.
Context `{Pydantic}.

Lemma field_inr {A} (validator : value → option A) kwargs name a :
  field validator kwargs name = inr a
  ↔ ∃ v, kwargs !! name = Some v ∧ validator v = Some a.
Proof.
  unfold field. split.
  - intros Hf. repeat (case_match; simplify_eq). eauto.
  - intros (v & -> & ->). done.
Qed.

Lemma field_missing {A} (validator : value → option A) kwargs name :
  kwargs !! name = None →
  fails_with (field validator kwargs name) (name, Missing).
Proof.
  intros Hk. unfold field. rewrite Hk. eexists. split; [done|].
  apply elem_of_cons. by left.
Qed.

Lemma field_invalid {A} (validator : value → option A) kwargs name v :
  kwargs !! name = Some v → validator v = None →
  fails_with (field validator kwargs name) (name, Invalid).
Proof.
  intros Hk Hv. unfold field. rewrite Hk, Hv. eexists. split; [done|].
  apply elem_of_cons. by left.
Qed.

Lemma fails_with_vap_l {A B} (f : validation (A → B)) x err :
  fails_with f err → fails_with (f <*> x) err.
Proof.
  intros (errs & -> & Hin). destruct x as [errs'|a]; simpl.
  - eexists. split; [done|]. apply elem_of_app. by left.
  - by eexists.
Qed.

Lemma fails_with_vap_r {A B} (f : validation (A → B)) x err :
  fails_with x err → fails_with (f <*> x) err.
Proof.
  intros (errs & -> & Hin). destruct f as [errs'|f]; simpl.
  - eexists. split; [done|]. apply elem_of_app. by right.
  - by eexists.
Qed.

Lemma vap_inr {A B} (f : validation (A → B)) x b :
  f <*> x = inr b ↔ ∃ g a, f = inr g ∧ x = inr a ∧ b = g a.
Proof.
  destruct f as [e|g], x as [e'|a]; simpl;
    (split; [intros Heq|intros (g' & a' & ? & ? & ?)]);
    simplify_eq; [by eexists _, _|done].
Qed.

Lemma field_of_coerce_int kwargs name n :
  (∃ v, kwargs !! name = Some v ∧ coerce TInt v = Some (VInt n)) →
  field validate_int kwargs name = inr n.
Proof.
  intros (v & Hk & Hv). apply field_inr. exists v. split; [done|].
  unfold coerce in Hv. destruct (validate_int v); by simplify_eq/=.
Qed.

Lemma field_of_coerce_str kwargs name s :
  (∃ v, kwargs !! name = Some v ∧ coerce TStr v = Some (VStr s)) →
  field validate_str kwargs name = inr s.
Proof.
  intros (v & Hk & Hv). apply field_inr. exists v. split; [done|].
  unfold coerce in Hv. destruct (validate_str v); by simplify_eq/=.
Qed.

(** [EnvioOut] is built exactly when each of its fields is a key of the
    keyword arguments whose value its validator accepts. *)
Lemma EnvioOut_model_inr kwargs r :
  EnvioOut.model kwargs = inr r
  ↔ ∀ name ty, (name, ty) ∈ EnvioOut_fields →
      ∃ v, kwargs !! name = Some v ∧ coerce ty v = EnvioOut_dict r !! name.
Proof.
  split.
  - unfold EnvioOut.model. intros Hm.
    repeat (apply vap_inr in Hm as (? & ? & Hm & ?%field_inr & ->)).
    simplify_eq. intros name ty Hin.
    repeat match goal with
           | Hx : ∃ _, _ ∧ _ |- _ => destruct Hx as (? & ? & ?)
           end.
    fields_cases Hin;
      match goal with
      | Hk : kwargs !! ?n = Some ?v, Hv : _ ?v = Some _
        |- ∃ _, kwargs !! ?n = _ ∧ _ =>
          exists v; split; [exact Hk|]; unfold coerce; rewrite Hv; reflexivity
      end.
  - intros Hall. destruct r as [a b c d e f g h].
    pose proof (λ name ty Hin, Hall name ty
                  (proj2 (list_elem_of_In _ _) Hin)) as Hall'.
    unfold EnvioOut.model.
    rewrite (field_of_coerce_int kwargs "envio_id" a),
      (field_of_coerce_str kwargs "remitente" b),
      (field_of_coerce_str kwargs "destinatario" c),
      (field_of_coerce_str kwargs "direccion_envio" d),
      (field_of_coerce_str kwargs "fecha_envio" e),
      (field_of_coerce_str kwargs "nombre_repartidor" f),
      (field_of_coerce_str kwargs "apellido_repartidor" g),
      (field_of_coerce_str kwargs "estado" h);
      [done|apply Hall'; simpl; tauto..].
Qed.
End Validation.

(** ** Timestamps *)

Lemma is_digit_digit n : is_digit (digit n) = true.
Proof.
  unfold digit. pose proof (Z.mod_pos_bound n 10 eq_refl) as Hb.
  assert (Z.to_nat (n mod 10) < 10)%nat as Hlt by lia.
  remember (Z.to_nat (n mod 10)) as m eqn:Hm. clear Hm Hb.
  do 10 (destruct m as [|m]; [reflexivity|]). lia.
Qed.

(** [isoformat()] always yields an ISO-8601 date and time. *)
Lemma isoformat_is_iso8601 d : is_iso8601 (isoformat d) = true.
Proof.
  unfold isoformat, fmt. cbn [zero_padded].
  repeat match goal with
         | |- context [digit ?x] =>
             generalize (is_digit_digit x); generalize (digit x); intros ? ?
         end.
  destruct (microsecond d =? 0); cbv -[is_digit];
    repeat match goal with
           | Hd : is_digit _ = true |- _ => rewrite Hd; clear Hd
           end;
    reflexivity.
Qed.

(** ** Rows to records *)

Section Rows.
Context `{Pydantic}.

Lemma outbound_other name v :
  name ≠ "fecha_envio" → outbound name v = v.
Proof.
  intros Hne. destruct v; simpl; [done..|]. by rewrite bool_decide_eq_false_2.
Qed.

(** What [envio_out] passes to [EnvioOut]: the dictionary of the row with
    every value in its outbound form. *)
Lemma envio_out_kwargs (names : list string) (row : row) v0 :
  py_dict (zip names row) !! "fecha_envio" = Some v0 →
  ∃ kwargs,
    envio_out names row = validated (EnvioOut.model kwargs)
    ∧ ∀ name, kwargs !! name
              = outbound name <$> py_dict (zip names row) !! name.
Proof.
  intros Hf. unfold envio_out. rewrite Hf.
  assert (∀ name, py_dict (zip names row) !! name
                  = outbound name <$> py_dict (zip names row) !! name
                  ∨ (name = "fecha_envio" ∧ ∃ d, v0 = VDatetime d))
    as Hsame.
  { intros name. destruct (decide (name = "fecha_envio")) as [->|Hne].
    - rewrite Hf. destruct v0; simpl; eauto.
    - left. destruct (py_dict (zip names row) !! name) as [v|]; [|done].
      simpl. by rewrite outbound_other. }
  destruct v0 as [| | |d];
    try (eexists; split; [done|]; intros name;
         by destruct (Hsame name) as [?|(_ & ? & ?)]).
  eexists. split; [done|]. intros name.
  destruct (decide (name = "fecha_envio")) as [->|Hne].
  - by rewrite lookup_insert_eq, Hf.
  - rewrite lookup_insert_ne by done. by destruct (Hsame name) as [?|[? _]].
Qed.

Lemma envio_out_maps (names : list string) (row : row) r :
  envio_out names row = inr r → row_maps_to names row r.
Proof.
  intros Hout i name ty v Hin Hn Hv Hlast.
  pose proof (py_dict_zip_lookup _ _ _ _ _ Hn Hv Hlast) as Hd.
  destruct (py_dict (zip names row) !! "fecha_envio") as [v0|] eqn:Hf.
  - destruct (envio_out_kwargs _ _ _ Hf) as (kwargs & Hk & Hlook).
    rewrite Hk in Hout. unfold validated in Hout.
    destruct (EnvioOut.model kwargs) as [|r'] eqn:Hm; simplify_eq.
    destruct (proj1 (EnvioOut_model_inr _ _) Hm name ty Hin) as (v' & Hv' & Hc).
    rewrite Hlook, Hd in Hv'. by simplify_eq/=.
  - unfold envio_out in Hout. by rewrite Hf in Hout.
Qed.

Lemma for_each_inr {A B} (f : A → exn + B) l bs :
  for_each f l = inr bs ↔ Forall2 (λ a b, f a = inr b) l bs.
Proof.
  revert bs. induction l as [|a l IH]; intros bs; simpl.
  - split; [intros [= <-]; constructor|by inversion 1].
  - destruct (f a) as [e|b] eqn:Hfa.
    + split; [done|]. inversion 1; congruence.
    + destruct (for_each f l) as [e|bs'] eqn:Hrest.
      * split; [done|]. inversion 1; subst.
        by match goal with Hx : Forall2 _ l _ |- _ => apply IH in Hx end.
      * split.
        -- intros [= <-]. constructor; [done|]. by apply IH.
        -- inversion 1; subst.
           match goal with Hx : Forall2 _ l _ |- _ => apply IH in Hx end.
           congruence.
Qed.
End Rows.

(** ** The routes *)

Section Routes.
Context {S : Type} (sql : aiomysql S) `{Pydantic} (cfg : config).

Lemma get_pool_sets (w w0 : world S) p :
  get_pool sql cfg w = (inr p, w0) → pool w0 = Some p.
Proof. unfold get_pool. intros Hg. by repeat (case_match; simplify_eq/=). Qed.

(** The calls a query that returns has added to the record. *)
Lemma ejecutar_consulta_log query params (w w' : world S) res :
  ejecutar_consulta sql cfg query params w = (inr res, w') →
  ∃ pre p c k,
    log w' = log w ++ pre ++ query_calls p c k query params
    ∧ pool_traffic pre = [] ∧ statements pre = [] ∧ pool w' = Some p.
Proof.
  destruct res as [rows desc]. intros Hrun.
  destruct (ejecutar_consulta_returns _ _ _ _ _ _ _ _ Hrun)
    as (w0 & p & c & k & s1 & s2 & s3 & s4 & s5
        & Hg & _ & _ & _ & _ & _ & _ & ->).
  destruct (get_pool_log _ _ _ _ _ Hg) as (pre & Hlog & Hq & Hs & _).
  exists pre, p, c, k. simpl. rewrite Hlog, <- app_assoc.
  split_and!; [done..|]. by eapply get_pool_sets.
Qed.

(** C2. When [sp_listar_envio_por_id] comes back with no rows, fetching a
    shipment raises [HTTPException] with status 404 and the message
    "Envío no encontrado"; no record is returned, whatever the description
    of the empty result is. *)
Theorem obtener_envio_not_found envio_id (w w' : world S) desc :
  ejecutar_consulta sql cfg "CALL sp_listar_envio_por_id(%s)"
    (Some [VInt envio_id]) w = (inr ([], desc), w') →
  obtener_envio sql cfg envio_id w
  = (inl (HTTPException 404 "Envío no encontrado"), w').
Proof. intros Hq. unfold obtener_envio, bind. by rewrite Hq. Qed.

(** What [crear_envio] does when both statements run: creating a
    shipment sends [sp_crear_envio] with the six input fields and then
    [SELECT LAST_INSERT_ID()], each on a connection acquired for it and
    released after it, and answers with the input fields as they were sent
    together with [envio_id], the integer found in the first column of the
    first row of the second result. *)
Theorem crear_envio_echoes (envio : EnvioCreate.t) (w w1 w2 : world S)
    res rows desc v n :
  ejecutar_consulta sql cfg "CALL sp_crear_envio(%s, %s, %s, %s, %s, %s)"
    (Some [VStr (EnvioCreate.remitente envio);
           VStr (EnvioCreate.destinatario envio);
           VStr (EnvioCreate.direccion_envio envio);
           VDatetime (EnvioCreate.fecha_envio envio);
           VInt (EnvioCreate.repartidor_id envio);
           VInt (EnvioCreate.estado_id envio)]) w = (inr res, w1) →
  ejecutar_consulta sql cfg "SELECT LAST_INSERT_ID()" None w1
  = (inr (rows, desc), w2) →
  first_cell rows = inr v →
  validate_int v = Some n →
  crear_envio sql cfg envio w
  = (inr (Envio.mk (EnvioCreate.remitente envio)
            (EnvioCreate.destinatario envio)
            (EnvioCreate.direccion_envio envio)
            (EnvioCreate.fecha_envio envio)
            (EnvioCreate.repartidor_id envio)
            (EnvioCreate.estado_id envio) n), w2)
  ∧ ∃ delta p c1 k1 c2 k2,
      log w2 = log w ++ delta
      ∧ statements delta
        = [EvExecute k1 "CALL sp_crear_envio(%s, %s, %s, %s, %s, %s)"
             (Some (envio_params envio));
           EvExecute k2 "SELECT LAST_INSERT_ID()" None]
      ∧ pool_traffic delta
        = [EvAcquire p c1; EvRelease p c1; EvAcquire p c2; EvRelease p c2].
Proof.
  intros Hq1 Hq2 Hcell Hint. split.
  - unfold crear_envio, bind, envio_params. rewrite Hq1, Hq2.
    unfold lift. rewrite Hcell. unfold Envio.model. by rewrite Hint.
  - destruct (ejecutar_consulta_log _ _ _ _ _ Hq1)
      as (pre & p & c1 & k1 & Hlog1 & Hq & Hs & Hp).
    destruct (ejecutar_consulta_returns _ _ _ _ _ _ _ _ Hq2)
      as (w0 & p' & c2 & k2 & ? & ? & ? & ? & ?
          & Hg & _ & _ & _ & _ & _ & _ & ->).
    rewrite (get_pool_cached _ _ _ _ Hp) in Hg. simplify_eq. simpl.
    eexists _, p', c1, k1, c2, k2. rewrite Hlog1, <- !app_assoc.
    split_and!; [done|..].
    + unfold statements in *. by rewrite filter_app, Hs.
    + unfold pool_traffic in *. by rewrite filter_app, Hq.
Qed.

(** C10. Updating and deleting send their statement and do not look at
    what comes back.  Whenever the driver calls of the statement return,
    whatever rows and description it gives (none, for an id with no
    shipment), the update answers with the id and the input fields and
    the deletion with the message that carries the id.  The only way
    either fails is an exception of the driver, passed on as it is;
    neither ever raises [HTTPException], so neither answers 404. *)
Theorem put_and_delete_ignore_absence envio_id (envio : EnvioCreate.t)
    (w : world S) :
  actualizar_envio sql cfg envio_id envio w
  = match ejecutar_consulta sql cfg
            "CALL sp_actualizar_envio(%s, %s, %s, %s, %s, %s, %s)"
            (Some [VStr (EnvioCreate.remitente envio);
                   VStr (EnvioCreate.destinatario envio);
                   VStr (EnvioCreate.direccion_envio envio);
                   VDatetime (EnvioCreate.fecha_envio envio);
                   VInt (EnvioCreate.repartidor_id envio);
                   VInt (EnvioCreate.estado_id envio);
                   VInt envio_id]) w with
    | (inr _, w') =>
        (inr (Envio.mk (EnvioCreate.remitente envio)
                (EnvioCreate.destinatario envio)
                (EnvioCreate.direccion_envio envio)
                (EnvioCreate.fecha_envio envio)
                (EnvioCreate.repartidor_id envio)
                (EnvioCreate.estado_id envio) envio_id), w')
    | (inl e, w') => (inl e, w')
    end
  ∧ eliminar_envio sql cfg envio_id w
    = match ejecutar_consulta sql cfg "CALL sp_eliminar_envio(%s)"
              (Some [VInt envio_id]) w with
      | (inr _, w') =>
          (inr ("Envío con ID " +:+ py_str envio_id
                +:+ " eliminado correctamente."), w')
      | (inl e, w') => (inl e, w')
      end
  ∧ (∀ status detail,
       (actualizar_envio sql cfg envio_id envio w).1
       ≠ inl (HTTPException status detail)
       ∧ (eliminar_envio sql cfg envio_id w).1
         ≠ inl (HTTPException status detail))
  ∧ (∀ w0 p c k s1 s2 s3 rows s4 s5,
       get_pool sql cfg w = (inr p, w0) →
       acquire sql p (driver w0) = (inr c, s1) →
       cursor sql c s1 = (inr k, s2) →
       execute sql k "CALL sp_actualizar_envio(%s, %s, %s, %s, %s, %s, %s)"
         (Some [VStr (EnvioCreate.remitente envio);
                VStr (EnvioCreate.destinatario envio);
                VStr (EnvioCreate.direccion_envio envio);
                VDatetime (EnvioCreate.fecha_envio envio);
                VInt (EnvioCreate.repartidor_id envio);
                VInt (EnvioCreate.estado_id envio);
                VInt envio_id]) s2 = (inr tt, s3) →
       fetchall sql k s3 = (inr rows, s4) →
       cursor_close sql k s4 = (inr tt, s5) →
       ∃ w', actualizar_envio sql cfg envio_id envio w
             = (inr (Envio.mk (EnvioCreate.remitente envio)
                       (EnvioCreate.destinatario envio)
                       (EnvioCreate.direccion_envio envio)
                       (EnvioCreate.fecha_envio envio)
                       (EnvioCreate.repartidor_id envio)
                       (EnvioCreate.estado_id envio) envio_id), w')
             ∧ driver w' = release sql p c s5)
  ∧ (∀ w0 p c k s1 s2 s3 rows s4 s5,
       get_pool sql cfg w = (inr p, w0) →
       acquire sql p (driver w0) = (inr c, s1) →
       cursor sql c s1 = (inr k, s2) →
       execute sql k "CALL sp_eliminar_envio(%s)" (Some [VInt envio_id]) s2
       = (inr tt, s3) →
       fetchall sql k s3 = (inr rows, s4) →
       cursor_close sql k s4 = (inr tt, s5) →
       ∃ w', eliminar_envio sql cfg envio_id w
             = (inr ("Envío con ID " +:+ py_str envio_id
                     +:+ " eliminado correctamente."), w')
             ∧ driver w' = release sql p c s5).
Proof.
  assert (Hput : actualizar_envio sql cfg envio_id envio w
    = match ejecutar_consulta sql cfg
              "CALL sp_actualizar_envio(%s, %s, %s, %s, %s, %s, %s)"
              (Some (envio_params envio ++ [VInt envio_id])) w with
      | (inr _, w') =>
          (inr (Envio.mk (EnvioCreate.remitente envio)
                  (EnvioCreate.destinatario envio)
                  (EnvioCreate.direccion_envio envio)
                  (EnvioCreate.fecha_envio envio)
                  (EnvioCreate.repartidor_id envio)
                  (EnvioCreate.estado_id envio) envio_id), w')
      | (inl e, w') => (inl e, w')
      end).
  { unfold actualizar_envio, bind, lift, Envio.model.
    rewrite validate_int_int. by repeat case_match. }
  assert (Hdel : eliminar_envio sql cfg envio_id w
    = match ejecutar_consulta sql cfg "CALL sp_eliminar_envio(%s)"
              (Some [VInt envio_id]) w with
      | (inr _, w') =>
          (inr ("Envío con ID " +:+ py_str envio_id
                +:+ " eliminado correctamente."), w')
      | (inl e, w') => (inl e, w')
      end).
  { unfold eliminar_envio, bind, ret. by repeat case_match. }
  split_and!; [exact Hput|exact Hdel| |..].
  2: { intros w0 p c k s1 s2 s3 rows s4 s5 Hg Hacq Hcur Hex Hfetch Hclose.
       pose proof (ejecutar_consulta_runs sql cfg _ _ _ _ _ _ _ _ _ _ _ _ _
                     Hg Hacq Hcur Hex Hfetch Hclose) as Hrun.
       rewrite Hput. cbn [envio_params app]. rewrite Hrun. by eexists. }
  2: { intros w0 p c k s1 s2 s3 rows s4 s5 Hg Hacq Hcur Hex Hfetch Hclose.
       rewrite Hdel.
       rewrite (ejecutar_consulta_runs sql cfg _ _ _ _ _ _ _ _ _ _ _ _ _
                  Hg Hacq Hcur Hex Hfetch Hclose).
       by eexists. }
  intros status detail. rewrite Hput, Hdel. clear Hput Hdel. split.
  - destruct (ejecutar_consulta _ _ _ _ w) as [[e|?] ?] eqn:Hq; simpl;
      [|discriminate].
    apply ejecutar_consulta_raises in Hq as [msg ->]. congruence.
  - destruct (ejecutar_consulta _ _ _ _ w) as [[e|?] ?] eqn:Hq; simpl;
      [|discriminate].
    apply ejecutar_consulta_raises in Hq as [msg ->]. congruence.
Qed.
End Routes.

(** ** Listings *)

Section Listings.
Context {S : Type} (sql : aiomysql S) `{Pydantic} (cfg : config).

Lemma row_maps_to_fecha (names : list string) (row : row) r :
  row_maps_to names row r → fecha_serialized names row r.
Proof.
  intros Hmap i d Hn Hv Hlast.
  assert (("fecha_envio", TStr) ∈ EnvioOut_fields) as Hin
    by (apply list_elem_of_In; simpl; tauto).
  pose proof (Hmap i "fecha_envio" TStr (VDatetime d) Hin Hn Hv Hlast) as Hc.
  unfold coerce, outbound in Hc. rewrite bool_decide_eq_true_2 in Hc by done.
  rewrite validate_str_str in Hc.
  change (EnvioOut_dict r !! "fecha_envio")
    with (Some (VStr (EnvioOut.fecha_envio r))) in Hc.
  simplify_eq/=.
  match goal with Hx : isoformat d = _ |- _ => rewrite <- Hx end.
  split; [done|apply isoformat_is_iso8601].
Qed.

Lemma listing_inr {A} (f : list string → row → exn + A) query
    (w w1 w' : world S) rows desc (recs : list A) :
  ejecutar_consulta sql cfg query None w = (inr (rows, desc), w1) →
  bind (ejecutar_consulta sql cfg query None)
    (λ '(rows, description),
       bind (lift (column_names description))
         (λ column_names, lift (for_each (f column_names) rows))) w
  = (inr recs, w')
  ↔ w' = w1 ∧ ∃ cols, desc = Some cols
      ∧ Forall2 (λ row r, f (col_name <$> cols) row = inr r) rows recs.
Proof.
  intros Hq. unfold bind, lift, column_names. rewrite Hq.
  destruct desc as [cols|]; simpl.
  - destruct (for_each (f (col_name <$> cols)) rows) as [e|recs'] eqn:Hfe.
    + split; [done|]. intros [_ (cols' & [= <-] & Hall)].
      apply for_each_inr in Hall. congruence.
    + apply for_each_inr in Hfe. split.
      * intros [= <- <-]. eauto.
      * intros [-> (cols' & [= <-] & Hall)]. apply for_each_inr in Hall.
        apply for_each_inr in Hfe. congruence.
  - split; [done|]. by intros [_ (cols & ? & _)].
Qed.

(** C9. Given the rows a listing statement returned, each of the three
    listing routes returns a list exactly when the result has a
    description and every row builds a record; the list then pairs off with
    the rows in order, one record for each row, so it is as long as the
    result and nothing is added, dropped or moved. *)
Theorem listings_keep_rows (w w1 : world S) rows desc :
  (ejecutar_consulta sql cfg "CALL sp_cbox_listar_repartidor()" None w
   = (inr (rows, desc), w1) →
   ∀ recs w',
     listar_repartidores sql cfg w = (inr recs, w')
     ↔ w' = w1 ∧ ∃ cols, desc = Some cols ∧ length recs = length rows
         ∧ Forall2 (λ row r,
              validated (Repartidor.model
                           (py_dict (zip (col_name <$> cols) row))) = inr r)
             rows recs)
  ∧ (ejecutar_consulta sql cfg "CALL sp_cbox_listar_estado_envio()" None w
     = (inr (rows, desc), w1) →
     ∀ recs w',
       listar_estados_envio sql cfg w = (inr recs, w')
       ↔ w' = w1 ∧ ∃ cols, desc = Some cols ∧ length recs = length rows
           ∧ Forall2 (λ row r,
                validated (EstadoEnvio.model
                             (py_dict (zip (col_name <$> cols) row))) = inr r)
               rows recs)
  ∧ (ejecutar_consulta sql cfg "CALL sp_listar_envio()" None w
     = (inr (rows, desc), w1) →
     ∀ recs w',
       listar_envios sql cfg w = (inr recs, w')
       ↔ w' = w1 ∧ ∃ cols, desc = Some cols ∧ length recs = length rows
           ∧ Forall2 (λ row r, envio_out (col_name <$> cols) row = inr r)
               rows recs).
Proof.
  split_and!; intros Hq recs w';
    [ unfold listar_repartidores | unfold listar_estados_envio
    | unfold listar_envios ];
    (etrans; [by eapply (listing_inr _ _ _ _ _ _ _ _ Hq)|]);
    (split; intros [-> (cols & -> & Hall)]; (split; [done|]);
     exists cols; [split_and!; [done| |done]|split; [done|tauto]]);
    symmetry; by eapply Forall2_length.
Qed.

Lemma envio_out_builds (names : list string) (row : row) r :
  (∀ name ty, (name, ty) ∈ EnvioOut_fields →
     ∃ v, py_dict (zip names row) !! name = Some v
          ∧ coerce ty (outbound name v) = EnvioOut_dict r !! name) →
  envio_out names row = inr r.
Proof.
  intros Hall.
  destruct (py_dict (zip names row) !! "fecha_envio") as [v0|] eqn:Hf.
  - destruct (envio_out_kwargs _ _ _ Hf) as (kwargs & -> & Hlook).
    assert (EnvioOut.model kwargs = inr r) as ->; [|done].
    apply EnvioOut_model_inr. intros name ty Hin.
    destruct (Hall name ty Hin) as (v & Hv & Hc).
    exists (outbound name v). by rewrite Hlook, Hv.
  - destruct (Hall "fecha_envio" TStr) as (v & Hv & _);
      [apply list_elem_of_In; simpl; tauto|congruence].
Qed.

(** C5. The shipment listing returns a list exactly when the result has
    a description and every row builds its record, one record for each row;
    the shipment lookup returns a record exactly when the first row builds
    it.  A record is built from its row by position: under each field name
    it holds what the validator makes of the value in the column of that
    name, a timestamp in the [fecha_envio] column having been replaced by
    its [isoformat()] text, an ISO-8601 date and time, before the record is
    built; and a row whose columns hold such values does build the
    record. *)
Theorem shipment_rows_are_zipped (w w1 : world S) rows desc :
  (ejecutar_consulta sql cfg "CALL sp_listar_envio()" None w
   = (inr (rows, desc), w1) →
   ∀ recs w',
     listar_envios sql cfg w = (inr recs, w')
     ↔ w' = w1 ∧ ∃ cols, desc = Some cols
         ∧ Forall2 (λ row r, envio_out (col_name <$> cols) row = inr r)
             rows recs)
  ∧ (∀ envio_id,
       ejecutar_consulta sql cfg "CALL sp_listar_envio_por_id(%s)"
         (Some [VInt envio_id]) w = (inr (rows, desc), w1) →
       ∀ r w',
         obtener_envio sql cfg envio_id w = (inr r, w')
         ↔ w' = w1 ∧ ∃ cols row0, desc = Some cols ∧ head rows = Some row0
             ∧ envio_out (col_name <$> cols) row0 = inr r)
  ∧ (∀ names row r,
       envio_out names row = inr r →
       row_maps_to names row r ∧ fecha_serialized names row r)
  ∧ (∀ names row r,
       (∀ name ty, (name, ty) ∈ EnvioOut_fields →
          ∃ v, py_dict (zip names row) !! name = Some v
               ∧ coerce ty (outbound name v) = EnvioOut_dict r !! name) →
       envio_out names row = inr r).
Proof.
  split_and!.
  - intros Hq recs w'. unfold listar_envios.
    by apply (listing_inr _ _ _ _ _ _ _ _ Hq).
  - intros envio_id Hq r w'. unfold obtener_envio, bind. rewrite Hq.
    destruct rows as [|row0 rest].
    + split; [done|]. by intros (_ & cols & row1 & _ & ? & _).
    + unfold lift, column_names. destruct desc as [cols|]; simpl.
      * split.
        -- intros [= Hout <-]. split; [done|]. by exists cols, row0.
        -- intros (-> & cols' & row1 & [= <-] & [= <-] & ->). done.
      * split; [done|]. by intros (_ & cols & row1 & ? & _).
  - intros names row r Hout. apply envio_out_maps in Hout.
    split; [done|by apply row_maps_to_fecha].
  - apply envio_out_builds.
Qed.
End Listings.

(** ** Shape mismatch *)

Section Mismatch.
Context `{Pydantic}.

Lemma coerce_None ty v :
  coerce ty v = None
  → match ty with
    | TInt => validate_int v = None
    | TStr => validate_str v = None
    end.
Proof. destruct ty; simpl; by intros ?%fmap_None. Qed.

Lemma EnvioOut_model_fails kwargs name ty :
  (name, ty) ∈ EnvioOut_fields →
  (kwargs !! name = None →
   fails_with (EnvioOut.model kwargs) (name, Missing))
  ∧ (∀ v, kwargs !! name = Some v → coerce ty v = None →
     fails_with (EnvioOut.model kwargs) (name, Invalid)).
Proof.
  intros Hin. split.
  - intros Hk. unfold EnvioOut.model.
    fields_cases Hin;
      repeat first [ apply fails_with_vap_r; by apply field_missing
                   | apply fails_with_vap_l ].
  - intros v Hk Hc%coerce_None. unfold EnvioOut.model.
    fields_cases Hin;
      repeat first [ apply fails_with_vap_r; by eapply field_invalid
                   | apply fails_with_vap_l ].
Qed.

(** C6, as the code has it.  A row whose dictionary has no [fecha_envio]
    key raises [KeyError] before any validation.  Otherwise a field of
    [EnvioOut] that is no key of the dictionary, or whose value the
    validator of its type rejects, makes the construction raise a
    validation error that names the field; and a record is built exactly
    when every field is present with a value its validator accepts, whether
    that value has the declared type or is coerced to it. *)
Theorem envio_out_shape_mismatch (names : list string) (row : row) :
  ("fecha_envio" ∉ names →
   envio_out names row = inl (KeyError "fecha_envio"))
  ∧ (py_dict (zip names row) !! "fecha_envio" = None →
     envio_out names row = inl (KeyError "fecha_envio"))
  ∧ (∀ name ty, (name, ty) ∈ EnvioOut_fields →
       is_Some (py_dict (zip names row) !! "fecha_envio") →
       (py_dict (zip names row) !! name = None →
        ∃ errs, envio_out names row = inl (ValidationError errs)
                ∧ (name, Missing) ∈ errs)
       ∧ (∀ v, py_dict (zip names row) !! name = Some v →
            coerce ty (outbound name v) = None →
            ∃ errs, envio_out names row = inl (ValidationError errs)
                    ∧ (name, Invalid) ∈ errs))
  ∧ (∀ r, envio_out names row = inr r
          ↔ ∀ name ty, (name, ty) ∈ EnvioOut_fields →
              ∃ v, py_dict (zip names row) !! name = Some v
                   ∧ coerce ty (outbound name v) = EnvioOut_dict r !! name).
Proof.
  assert (Hkey : py_dict (zip names row) !! "fecha_envio" = None →
                 envio_out names row = inl (KeyError "fecha_envio")).
  { intros Hf. unfold envio_out. by rewrite Hf. }
  split_and!; [by intros ?%(py_dict_zip_absent _ row)%Hkey|done|..].
  - intros name ty Hin [v0 Hf].
    destruct (envio_out_kwargs _ _ _ Hf) as (kwargs & -> & Hlook).
    destruct (EnvioOut_model_fails kwargs name ty Hin) as [Hmiss Hinv].
    split.
    + intros Hd. destruct Hmiss as (errs & -> & ?); [|by eexists].
      by rewrite Hlook, Hd.
    + intros v Hd Hc. destruct (Hinv (outbound name v)) as (errs & -> & ?);
        [by rewrite Hlook, Hd|done|by eexists].
  - intros r. destruct (py_dict (zip names row) !! "fecha_envio")
      as [v0|] eqn:Hf.
    + destruct (envio_out_kwargs _ _ _ Hf) as (kwargs & -> & Hlook).
      assert (validated (EnvioOut.model kwargs) = inr r
              ↔ EnvioOut.model kwargs = inr r) as ->.
      { unfold validated. destruct (EnvioOut.model kwargs); naive_solver. }
      rewrite EnvioOut_model_inr. split; intros Hall name ty Hin.
      * destruct (Hall name ty Hin) as (v' & Hv' & Hc).
        rewrite Hlook in Hv'.
        destruct (py_dict (zip names row) !! name) as [v|]; simplify_eq/=.
        eauto.
      * destruct (Hall name ty Hin) as (v & Hv & Hc).
        exists (outbound name v). by rewrite Hlook, Hv.
    + rewrite (Hkey eq_refl). split; [done|]. intros Hall.
      destruct (Hall "fecha_envio" TStr) as (v & Hv & _);
        [apply list_elem_of_In; simpl; tauto|]. congruence.
Qed.
End Mismatch.

(** ** Configuration *)

(** C7, as the code has it.  The five values are read from the environment
    when the module is imported, and the handlers use what was read then.
    An unset [DB_PORT] stops the import with [TypeError] and one that is no
    integer with [ValueError].  Nothing of the kind is checked for the host,
    the user, the password and the database name: an unset one is loaded as
    [None] and handed to [create_pool] as it is, and startup then succeeds
    or fails as [create_pool] does. *)
Theorem config_from_environment `{Interpreter} {S} (sql : aiomysql S)
    (environ : gmap string string) (s : S) :
  (environ !! "DB_PORT" = None →
   load_config environ = inl TypeError ∧ boot sql environ s = inl TypeError)
  ∧ (∀ text, environ !! "DB_PORT" = Some text → py_int text = None →
       load_config environ = inl ValueError
       ∧ boot sql environ s = inl ValueError)
  ∧ (∀ text n, environ !! "DB_PORT" = Some text → py_int text = Some n →
       load_config environ
       = inr (mk_config (environ !! "DB_HOST") n (environ !! "DB_USER")
                (environ !! "DB_PASSWORD") (environ !! "DB_NAME"))
       ∧ boot sql environ s
         = match create_pool sql
                   (mk_pool_args (environ !! "DB_HOST") n
                      (environ !! "DB_USER") (environ !! "DB_PASSWORD")
                      (environ !! "DB_NAME") true) s with
           | (inr p, s') =>
               inr (mk_world (Some p) s'
                      [EvCreatePool
                         (mk_pool_args (environ !! "DB_HOST") n
                            (environ !! "DB_USER") (environ !! "DB_PASSWORD")
                            (environ !! "DB_NAME") true)])
           | (inl msg, _) => inl (DriverError msg)
           end).
Proof.
  unfold boot, load_config. split_and!.
  - by intros ->.
  - by intros text -> ->.
  - intros text n -> ->. split; [done|].
    unfold startup, bind, get_pool, ret. simpl.
    by destruct (create_pool sql _ s) as [[msg|p] s'].
Qed.

(** ** Update then fetch, on the stored procedures *)

Lemma statement_actualizar c (db : database) envio_id envio :
  references_ok db envio = true →
  statement c "CALL sp_actualizar_envio(%s, %s, %s, %s, %s, %s, %s)"
    (Some (envio_params envio ++ [VInt envio_id])) db
  = (inr tt,
     mk_database
       (match envios db !! envio_id with
        | Some _ => <[envio_id := envio]> (envios db)
        | None => envios db
        end)
       (repartidores db) (estados_envio db) (auto_increment db)
       (last_insert_id db) (handout db) (<[c := ([], None)]> (results db))).
Proof.
  intros Hrefs. unfold statement.
  repeat (case_bool_decide; simplify_eq).
  destruct envio. simpl in *. by rewrite Hrefs.
Qed.

Lemma statement_listar_por_id c (db : database) envio_id :
  statement c "CALL sp_listar_envio_por_id(%s)" (Some [VInt envio_id]) db
  = (inr tt, set_results c (view_row db envio_id, Some view_columns) db).
Proof. unfold statement. by repeat (case_bool_decide; simplify_eq). Qed.

Section UpdateThenFetch.
Context `{Pydantic} (cfg : config).

Lemma envio_out_view id rem dest dir fecha nombre apellido estado :
  envio_out (col_name <$> view_columns)
    [VInt id; VStr rem; VStr dest; VStr dir; VDatetime fecha; VStr nombre;
     VStr apellido; VStr estado]
  = inr (EnvioOut.mk id rem dest dir (isoformat fecha) nombre apellido estado).
Proof.
  unfold envio_out.
  change (py_dict _ !! "fecha_envio") with (Some (VDatetime fecha)).
  cbv beta iota. generalize (isoformat fecha). intros iso.
  unfold EnvioOut.model, field.
  repeat match goal with
  | |- context [?m !! ?k] =>
      match type of m with gmap string value =>
      let r := eval vm_compute in (m !! k) in
      change (m !! k) with r end
  end.
  cbv beta iota. rewrite validate_int_int, !validate_str_str. reflexivity.
Qed.

(** A statement that runs on the stored procedures: the query helper
    returns the result set left for the connection it was given. *)
Lemma mysql_ejecutar_consulta query params (w : world database) c db1 db2 :
  acquire mysql 0%nat (driver w) = (inr c, db1) →
  statement c query params db1 = (inr tt, db2) →
  ∃ w', ejecutar_consulta mysql cfg query params w
        = (inr (default [] (fst <$> results db2 !! c),
                results db2 !! c ≫= snd), w')
        ∧ driver w' = db2.
Proof.
  intros Hacq Hst.
  unfold ejecutar_consulta, with_acquire, with_cursor, bind, call, get_pool.
  destruct (pool w) as [p|]; simpl in *; rewrite Hacq; simpl; rewrite Hst;
    simpl; by eexists.
Qed.

Lemma mysql_acquire (db : database) :
  ∃ c db1, acquire mysql 0%nat db = (inr c, db1)
    ∧ envios db1 = envios db ∧ repartidores db1 = repartidores db
    ∧ estados_envio db1 = estados_envio db.
Proof. simpl. destruct (handout db); by eexists _, _. Qed.

(** C8, as the code and the stored procedures have it.  For a shipment
    that exists, and an input whose delivery person and status exist,
    updating and then fetching it gives the record with the same id, the
    updated sender, recipient and address, the updated date as its ISO
    text, and the names of the delivery person and the label of the status
    the update refers to; the record has no field for the two references
    themselves. *)
Theorem put_then_get (w : world database) envio_id (envio old : EnvioCreate.t)
    nombre apellido telefono estado :
  envios (driver w) !! envio_id = Some old →
  repartidores (driver w) !! EnvioCreate.repartidor_id envio
  = Some (nombre, apellido, telefono) →
  estados_envio (driver w) !! EnvioCreate.estado_id envio = Some estado →
  ∃ w1 w2,
    actualizar_envio mysql cfg envio_id envio w
    = (inr (Envio.mk (EnvioCreate.remitente envio)
              (EnvioCreate.destinatario envio)
              (EnvioCreate.direccion_envio envio)
              (EnvioCreate.fecha_envio envio)
              (EnvioCreate.repartidor_id envio)
              (EnvioCreate.estado_id envio) envio_id), w1)
    ∧ obtener_envio mysql cfg envio_id w1
      = (inr (EnvioOut.mk envio_id (EnvioCreate.remitente envio)
                (EnvioCreate.destinatario envio)
                (EnvioCreate.direccion_envio envio)
                (isoformat (EnvioCreate.fecha_envio envio))
                nombre apellido estado), w2).
Proof.
  intros Hold Hrep Hest.
  destruct (mysql_acquire (driver w)) as (c & db1 & Hacq & He & Hr & Hs).
  assert (references_ok db1 envio = true) as Hrefs.
  { unfold references_ok. rewrite Hr, Hs, Hrep, Hest.
    by rewrite !bool_decide_eq_true_2 by eauto. }
  destruct (mysql_ejecutar_consulta _ _ _ _ _ _ Hacq
              (statement_actualizar c db1 envio_id envio Hrefs))
    as (w1 & Hput & Hd1).
  rewrite He, Hold in Hput, Hd1.
  destruct (mysql_acquire (driver w1)) as (c' & db3 & Hacq' & He' & Hr' & Hs').
  destruct (mysql_ejecutar_consulta _ _ _ _ _ _ Hacq'
              (statement_listar_por_id c' db3 envio_id))
    as (w2 & Hget & _).
  exists w1, w2. split.
  - unfold actualizar_envio, bind, lift. rewrite Hput.
    unfold Envio.model. by rewrite validate_int_int.
  - unfold obtener_envio, bind, lift. rewrite Hget.
    unfold set_results. simpl. rewrite lookup_insert_eq. simpl.
    unfold view_row. rewrite He', Hr', Hs', Hd1. simpl.
    rewrite lookup_insert_eq, Hr, Hs, Hrep, Hest.
    by rewrite envio_out_view.
Qed.
End UpdateThenFetch.

(** * The properties on concrete runs *)

Lemma crear_envio_echoes_witness :
  ∃ w1 w2,
    ejecutar_consulta mysql cfg0 "CALL sp_crear_envio(%s, %s, %s, %s, %s, %s)"
      (Some [VStr "A"; VStr "B"; VStr "X";
             VDatetime (mk_datetime 2024 1 1 10 0 0 0); VInt 1; VInt 1])
      (world0 db0) = (inr ([], None), w1)
    ∧ ejecutar_consulta mysql cfg0 "SELECT LAST_INSERT_ID()" None w1
      = (inr ([[VInt 1]], Some [mk_column "LAST_INSERT_ID()" 8]), w2)
    ∧ first_cell [[VInt 1]] = inr (VInt 1)
    ∧ validate_int (VInt 1) = Some 1
    ∧ crear_envio mysql cfg0 envio_a (world0 db0)
      = (inr (Envio.mk "A" "B" "X" (mk_datetime 2024 1 1 10 0 0 0) 1 1 1), w2).
Proof.
  pose (w1 := (ejecutar_consulta mysql cfg0
                 "CALL sp_crear_envio(%s, %s, %s, %s, %s, %s)"
                 (Some (envio_params envio_a)) (world0 db0)).2).
  pose (w2 := (ejecutar_consulta mysql cfg0 "SELECT LAST_INSERT_ID()" None
                 w1).2).
  exists w1, w2.
  assert (H1 : ejecutar_consulta mysql cfg0
                 "CALL sp_crear_envio(%s, %s, %s, %s, %s, %s)"
                 (Some [VStr "A"; VStr "B"; VStr "X";
                        VDatetime (mk_datetime 2024 1 1 10 0 0 0);
                        VInt 1; VInt 1]) (world0 db0)
               = (inr ([], None), w1)) by (vm_compute; reflexivity).
  assert (H2 : ejecutar_consulta mysql cfg0 "SELECT LAST_INSERT_ID()" None w1
               = (inr ([[VInt 1]], Some [mk_column "LAST_INSERT_ID()" 8]), w2))
    by (vm_compute; reflexivity).
  split_and!; [exact H1|exact H2|reflexivity|reflexivity|].
  exact (proj1 (crear_envio_echoes mysql cfg0 envio_a _ _ _ _ _ _ _ _
                  H1 H2 eq_refl eq_refl)).
Defined.

(** C1. The response of [crear_envio] need not carry the id of the
    shipment it created, nor an id greater than 0.  [SELECT
    LAST_INSERT_ID()] runs on a connection acquired after the one that ran
    [sp_crear_envio] has been released; on a pool that serves it from
    another connection the shipment is stored under id 1 and the response
    carries [envio_id] 0. *)
Lemma crear_envio_id_zero :
  (crear_envio mysql cfg0 envio_a (world0 db_two_connections)).1
  = inr (Envio.mk "A" "B" "X" (mk_datetime 2024 1 1 10 0 0 0) 1 1 0)
  ∧ ¬ (∃ r, (crear_envio mysql cfg0 envio_a (world0 db_two_connections)).1
            = inr r ∧ 0 < Envio.envio_id r)
  ∧ envios (driver (crear_envio mysql cfg0 envio_a
                      (world0 db_two_connections)).2) !! 1 = Some envio_a
  ∧ pool_traffic (log (crear_envio mysql cfg0 envio_a
                         (world0 db_two_connections)).2)
    = [EvAcquire 0%nat 0%nat; EvRelease 0%nat 0%nat;
       EvAcquire 0%nat 1%nat; EvRelease 0%nat 1%nat].
Proof.
  assert (Hrun : (crear_envio mysql cfg0 envio_a
                    (world0 db_two_connections)).1
                 = inr (Envio.mk "A" "B" "X" (mk_datetime 2024 1 1 10 0 0 0)
                          1 1 0)) by (vm_compute; reflexivity).
  split_and!; [exact Hrun| |vm_compute; reflexivity..].
  intros (r & Hr & Hpos). rewrite Hrun in Hr.
  injection Hr as <-. simpl in Hpos. lia.
Qed.

Lemma obtener_envio_not_found_witness :
  ∃ w',
    ejecutar_consulta mysql cfg0 "CALL sp_listar_envio_por_id(%s)"
      (Some [VInt 5]) (world0 db1) = (inr ([], Some view_columns), w')
    ∧ obtener_envio mysql cfg0 5 (world0 db1)
      = (inl (HTTPException 404 "Envío no encontrado"), w').
Proof.
  pose (w' := (ejecutar_consulta mysql cfg0 "CALL sp_listar_envio_por_id(%s)"
                 (Some [VInt 5]) (world0 db1)).2).
  exists w'.
  assert (Hq : ejecutar_consulta mysql cfg0 "CALL sp_listar_envio_por_id(%s)"
                 (Some [VInt 5]) (world0 db1)
               = (inr ([], Some view_columns), w'))
    by (vm_compute; reflexivity).
  split; [exact Hq|].
  exact (obtener_envio_not_found mysql cfg0 5 _ _ _ Hq).
Defined.

Lemma pool_created_once_and_kept_witness :
  pool (world0 db1) = None
  ∧ create_pool mysql
      (mk_pool_args (DB_HOST cfg0) (DB_PORT cfg0) (DB_USER cfg0)
         (DB_PASSWORD cfg0) (DB_NAME cfg0) true) (driver (world0 db1))
    = (inr 0%nat, db1)
  ∧ ∃ w1,
      get_pool mysql cfg0 (world0 db1) = (inr 0%nat, w1)
      ∧ co_run (get_pool_co mysql cfg0) (world0 db1) = (inr 0%nat, w1)
      ∧ w1 = mk_world (Some 0%nat) db1
               (log (world0 db1)
                ++ [EvCreatePool
                      (mk_pool_args (DB_HOST cfg0) (DB_PORT cfg0)
                         (DB_USER cfg0) (DB_PASSWORD cfg0) (DB_NAME cfg0)
                         true)])
      ∧ ∀ (rs : list request) (schedule : list nat),
          let w2 := (interleave schedule (serve_co mysql cfg0 <$> rs, w1)).2 in
          pool w2 = Some 0%nat
          ∧ get_pool mysql cfg0 w2 = (inr 0%nat, w2)
          ∧ co_run (get_pool_co mysql cfg0) w2 = (inr 0%nat, w2)
          ∧ creations (log w2) = (creations (log (world0 db1)) + 1)%nat.
Proof.
  split; [reflexivity|]. split; [reflexivity|].
  exact (pool_created_once_and_kept mysql cfg0 (world0 db1) 0%nat db1
           eq_refl eq_refl).
Defined.

(** The claim C3 as stated fails: two requests that both arrive while
    [pool] is [None] each find it so and each create a pool.  The handler
    resumed first stores pool 0; the other then replaces it by pool 1, and
    [create_pool] has been called twice. *)
Lemma overlapping_first_calls :
  let tasks := serve_co numbering_server cfg0
               <$> [GetRepartidores; GetEstadosEnvio] in
  let before := interleave [0; 1; 0]%nat (tasks, world0 0%nat) in
  let after := interleave [0; 1; 0; 1]%nat (tasks, world0 0%nat) in
  pool (world0 0%nat) = None
  ∧ pool before.2 = Some 0%nat
  ∧ pool after.2 = Some 1%nat
  ∧ log after.2 = [EvCreatePool (create_args cfg0);
                   EvCreatePool (create_args cfg0)]
  ∧ creations (log after.2) = 2%nat
  ∧ ¬ (∀ p, pool before.2 = Some p → pool after.2 = Some p).
Proof.
  cbv zeta. split_and!; [vm_compute; reflexivity..|].
  intros Hkept. specialize (Hkept 0%nat).
  assert (Hb : pool (interleave [0; 1; 0]%nat
                       (serve_co numbering_server cfg0
                        <$> [GetRepartidores; GetEstadosEnvio],
                        world0 0%nat)).2 = Some 0%nat)
    by (vm_compute; reflexivity).
  specialize (Hkept Hb). vm_compute in Hkept. discriminate.
Qed.


Lemma put_and_delete_ignore_absence_witness :
  envios db0 !! 7 = None
  ∧ (∃ w', actualizar_envio mysql cfg0 7 envio_a (world0 db0)
           = (inr (Envio.mk "A" "B" "X" (mk_datetime 2024 1 1 10 0 0 0)
                     1 1 7), w')
           ∧ driver w'
             = release mysql 0%nat 0%nat
                 (execute mysql 0%nat
                    "CALL sp_actualizar_envio(%s, %s, %s, %s, %s, %s, %s)"
                    (Some (envio_params envio_a ++ [VInt 7])) db0).2)
  ∧ (∃ w', eliminar_envio mysql cfg0 7 (world0 db0)
           = (inr "Envío con ID 7 eliminado correctamente.", w')
           ∧ driver w'
             = release mysql 0%nat 0%nat
                 (execute mysql 0%nat "CALL sp_eliminar_envio(%s)"
                    (Some [VInt 7]) db0).2).
Proof.
  pose (s3 := (execute mysql 0%nat
                 "CALL sp_actualizar_envio(%s, %s, %s, %s, %s, %s, %s)"
                 (Some (envio_params envio_a ++ [VInt 7])) db0).2).
  pose (t3 := (execute mysql 0%nat "CALL sp_eliminar_envio(%s)"
                 (Some [VInt 7]) db0).2).
  assert (Hg : get_pool mysql cfg0 (world0 db0)
               = (inr 0%nat,
                  mk_world (Some 0%nat) db0 [EvCreatePool (create_args cfg0)]))
    by reflexivity.
  assert (Hput : execute mysql 0%nat
                   "CALL sp_actualizar_envio(%s, %s, %s, %s, %s, %s, %s)"
                   (Some [VStr (EnvioCreate.remitente envio_a);
                          VStr (EnvioCreate.destinatario envio_a);
                          VStr (EnvioCreate.direccion_envio envio_a);
                          VDatetime (EnvioCreate.fecha_envio envio_a);
                          VInt (EnvioCreate.repartidor_id envio_a);
                          VInt (EnvioCreate.estado_id envio_a);
                          VInt 7]) db0 = (inr tt, s3))
    by (vm_compute; reflexivity).
  assert (Hdel : execute mysql 0%nat "CALL sp_eliminar_envio(%s)"
                   (Some [VInt 7]) db0 = (inr tt, t3))
    by (vm_compute; reflexivity).
  assert (Hf1 : fetchall mysql 0%nat s3 = (inr [], s3))
    by (vm_compute; reflexivity).
  assert (Hf2 : fetchall mysql 0%nat t3 = (inr [], t3))
    by (vm_compute; reflexivity).
  split; [reflexivity|]. split.
  - exact (proj1 (proj2 (proj2 (proj2
             (put_and_delete_ignore_absence mysql cfg0 7 envio_a
                (world0 db0)))))
             _ 0%nat 0%nat 0%nat db0 db0 s3 [] s3 s3
             Hg eq_refl eq_refl Hput Hf1 eq_refl).
  - exact (proj2 (proj2 (proj2 (proj2
             (put_and_delete_ignore_absence mysql cfg0 7 envio_a
                (world0 db0)))))
             _ 0%nat 0%nat 0%nat db0 db0 t3 [] t3 t3
             Hg eq_refl eq_refl Hdel Hf2 eq_refl).
Defined.

(** A query that raises gives its connection back all the same. *)
Example ejecutar_consulta_raises_and_releases :
  ejecutar_consulta failing_server cfg0 "CALL sp_listar_envio()" None
    (world0 ([], None))
  = (inl (DriverError "server has gone away"),
     mk_world (Some 0%nat) ([], None)
       [EvCreatePool (mk_pool_args (Some "db.example") 3306 (Some "api")
                        (Some "secret") (Some "envios") true);
        EvAcquire 0%nat 0%nat; EvCursor 0%nat 0%nat;
        EvExecute 0%nat "CALL sp_listar_envio()" None;
        EvCursorClose 0%nat; EvRelease 0%nat 0%nat]).
Proof. vm_compute. reflexivity. Qed.

Lemma shipment_rows_are_zipped_witness :
  ∃ w1,
    ejecutar_consulta two_envios cfg0 "CALL sp_listar_envio()" None
      (world0 ([], None))
    = (inr ([[VInt 1; VStr "A"; VStr "B"; VStr "X";
              VDatetime (mk_datetime 2024 1 1 10 0 0 0);
              VStr "Ana"; VStr "Paz"; VStr "Pendiente"];
             [VInt 2; VStr "C"; VStr "D"; VStr "Y";
              VDatetime (mk_datetime 2024 2 29 8 30 0 250000);
              VStr "Luis"; VStr "Rey"; VStr "Entregado"]],
            Some view_columns), w1)
    ∧ listar_envios two_envios cfg0 (world0 ([], None))
      = (inr [EnvioOut.mk 1 "A" "B" "X" "2024-01-01T10:00:00" "Ana" "Paz"
                "Pendiente";
              EnvioOut.mk 2 "C" "D" "Y" "2024-02-29T08:30:00.250000" "Luis"
                "Rey" "Entregado"], w1)
    ∧ row_maps_to (col_name <$> view_columns)
        [VInt 2; VStr "C"; VStr "D"; VStr "Y";
         VDatetime (mk_datetime 2024 2 29 8 30 0 250000);
         VStr "Luis"; VStr "Rey"; VStr "Entregado"]
        (EnvioOut.mk 2 "C" "D" "Y" "2024-02-29T08:30:00.250000" "Luis"
           "Rey" "Entregado")
    ∧ fecha_serialized (col_name <$> view_columns)
        [VInt 2; VStr "C"; VStr "D"; VStr "Y";
         VDatetime (mk_datetime 2024 2 29 8 30 0 250000);
         VStr "Luis"; VStr "Rey"; VStr "Entregado"]
        (EnvioOut.mk 2 "C" "D" "Y" "2024-02-29T08:30:00.250000" "Luis"
           "Rey" "Entregado").
Proof.
  pose (w1 := (ejecutar_consulta two_envios cfg0 "CALL sp_listar_envio()"
                 None (world0 ([], None))).2).
  exists w1.
  assert (Hq : ejecutar_consulta two_envios cfg0 "CALL sp_listar_envio()"
                 None (world0 ([], None))
               = (inr ([[VInt 1; VStr "A"; VStr "B"; VStr "X";
                         VDatetime (mk_datetime 2024 1 1 10 0 0 0);
                         VStr "Ana"; VStr "Paz"; VStr "Pendiente"];
                        [VInt 2; VStr "C"; VStr "D"; VStr "Y";
                         VDatetime (mk_datetime 2024 2 29 8 30 0 250000);
                         VStr "Luis"; VStr "Rey"; VStr "Entregado"]],
                       Some view_columns), w1))
    by (vm_compute; reflexivity).
  assert (H1 : envio_out (col_name <$> view_columns)
                 [VInt 1; VStr "A"; VStr "B"; VStr "X";
                  VDatetime (mk_datetime 2024 1 1 10 0 0 0);
                  VStr "Ana"; VStr "Paz"; VStr "Pendiente"]
               = inr (EnvioOut.mk 1 "A" "B" "X" "2024-01-01T10:00:00" "Ana"
                        "Paz" "Pendiente")) by (vm_compute; reflexivity).
  assert (H2 : envio_out (col_name <$> view_columns)
                 [VInt 2; VStr "C"; VStr "D"; VStr "Y";
                  VDatetime (mk_datetime 2024 2 29 8 30 0 250000);
                  VStr "Luis"; VStr "Rey"; VStr "Entregado"]
               = inr (EnvioOut.mk 2 "C" "D" "Y" "2024-02-29T08:30:00.250000"
                        "Luis" "Rey" "Entregado"))
    by (vm_compute; reflexivity).
  split; [exact Hq|]. split.
  - apply (proj1 (shipment_rows_are_zipped two_envios cfg0
                    (world0 ([], None)) w1 _ _) Hq).
    split; [reflexivity|]. exists view_columns. split; [reflexivity|].
    constructor; [exact H1|]. constructor; [exact H2|]. constructor.
  - exact (proj1 (proj2 (proj2 (shipment_rows_are_zipped two_envios cfg0
                                  (world0 ([], None)) w1 [] None)))
             _ _ _ H2).
Defined.

(** The claim C6 as stated fails: the id arrives as text where [EnvioOut]
    declares an [int], and a record is built all the same, the text being
    read as the number 5. *)
Lemma wrong_type_accepted :
  row_with_text_id !! 0%nat = Some (VStr "5")
  ∧ (∀ n, VStr "5" ≠ VInt n)
  ∧ ("envio_id", TInt) ∈ EnvioOut_fields
  ∧ envio_out (col_name <$> view_columns) row_with_text_id
    = inr (EnvioOut.mk 5 "A" "B" "X" "2024-01-01T10:00:00" "Ana" "Paz"
             "Pendiente").
Proof.
  split_and!; [reflexivity|done| |vm_compute; reflexivity].
  apply list_elem_of_In. simpl. tauto.
Qed.

Lemma envio_out_shape_mismatch_witness :
  (("fecha_envio" ∉ ["envio_id"; "remitente"])
   ∧ envio_out ["envio_id"; "remitente"] [VInt 1; VStr "A"]
     = inl (KeyError "fecha_envio"))
  ∧ (("estado", TStr) ∈ EnvioOut_fields
     ∧ is_Some (py_dict (zip ["fecha_envio"; "estado"]
                           [VStr "2024-01-01T10:00:00"; VNone])
                !! "fecha_envio")
     ∧ py_dict (zip ["fecha_envio"; "estado"]
                  [VStr "2024-01-01T10:00:00"; VNone]) !! "estado"
       = Some VNone
     ∧ coerce TStr (outbound "estado" VNone) = None
     ∧ ∃ errs,
         envio_out ["fecha_envio"; "estado"]
           [VStr "2024-01-01T10:00:00"; VNone]
         = inl (ValidationError errs)
         ∧ ("estado", Invalid) ∈ errs).
Proof.
  assert (Hno : "fecha_envio" ∉ ["envio_id"; "remitente"]).
  { intros Hin%list_elem_of_In. simpl in Hin.
    destruct Hin as [Heq|[Heq|[]]]; discriminate Heq. }
  assert (Hin : ("estado", TStr) ∈ EnvioOut_fields)
    by (apply list_elem_of_In; simpl; tauto).
  assert (Hf : is_Some (py_dict (zip ["fecha_envio"; "estado"]
                                   [VStr "2024-01-01T10:00:00"; VNone])
                        !! "fecha_envio")) by (eexists; reflexivity).
  split.
  - split; [exact Hno|].
    exact (proj1 (envio_out_shape_mismatch ["envio_id"; "remitente"]
                    [VInt 1; VStr "A"]) Hno).
  - split_and!; [exact Hin|exact Hf|reflexivity|reflexivity|].
    exact (proj2 (proj1 (proj2 (proj2
             (envio_out_shape_mismatch ["fecha_envio"; "estado"]
                [VStr "2024-01-01T10:00:00"; VNone]))) "estado" TStr Hin Hf)
             VNone eq_refl eq_refl).
Defined.

(** The claim C7 as stated fails: with no [DB_NAME] in the environment the
    module loads, the pool is created with [db=None] and startup completes. *)
Lemma startup_without_db_name :
  environ_without_name !! "DB_NAME" = None
  ∧ boot mysql environ_without_name db0
    = inr (mk_world (Some 0%nat) db0
             [EvCreatePool
                (mk_pool_args (Some "db.example") 3306 (Some "api")
                   (Some "secret") None true)]).
Proof. split; vm_compute; reflexivity. Qed.

Lemma config_from_environment_witness :
  ((∅ : gmap string string) !! "DB_PORT" = None
   ∧ load_config ∅ = inl TypeError ∧ boot mysql ∅ db0 = inl TypeError)
  ∧ (environ_full !! "DB_PORT" = Some "3306" ∧ py_int "3306" = Some 3306
     ∧ load_config environ_full
       = inr (mk_config (environ_full !! "DB_HOST") 3306
                (environ_full !! "DB_USER") (environ_full !! "DB_PASSWORD")
                (environ_full !! "DB_NAME")))
  ∧ (<["DB_PORT" := "tres"]> environ_full !! "DB_PORT" = Some "tres"
     ∧ py_int "tres" = None
     ∧ load_config (<["DB_PORT" := "tres"]> environ_full) = inl ValueError).
Proof.
  assert (Hnone : (∅ : gmap string string) !! "DB_PORT" = None)
    by reflexivity.
  assert (Hport : environ_full !! "DB_PORT" = Some "3306")
    by (vm_compute; reflexivity).
  assert (Hint : py_int "3306" = Some 3306) by (vm_compute; reflexivity).
  assert (Htres : <["DB_PORT" := "tres"]> environ_full !! "DB_PORT"
                  = Some "tres") by (vm_compute; reflexivity).
  assert (Hbad : py_int "tres" = None) by (vm_compute; reflexivity).
  split; [|split].
  - split; [exact Hnone|].
    exact (proj1 (config_from_environment mysql ∅ db0) Hnone).
  - split; [exact Hport|]. split; [exact Hint|].
    exact (proj1 (proj2 (proj2 (config_from_environment mysql environ_full
                                  db0)) "3306" 3306 Hport Hint)).
  - split; [exact Htres|]. split; [exact Hbad|].
    exact (proj1 (proj1 (proj2 (config_from_environment mysql
                                  (<["DB_PORT" := "tres"]> environ_full) db0))
                    "tres" Htres Hbad)).
Defined.

(** The claim C8 as stated fails: for an id with no shipment the update
    answers with the id and the input, and the fetch that follows finds no
    row and answers 404. *)
Lemma put_then_get_absent :
  envios db0 !! 1 = None
  ∧ (actualizar_envio mysql cfg0 1 envio_a (world0 db0)).1
    = inr (Envio.mk "A" "B" "X" (mk_datetime 2024 1 1 10 0 0 0) 1 1 1)
  ∧ (obtener_envio mysql cfg0 1
       (actualizar_envio mysql cfg0 1 envio_a (world0 db0)).2).1
    = inl (HTTPException 404 "Envío no encontrado").
Proof. split_and!; vm_compute; reflexivity. Qed.

Lemma put_then_get_witness :
  envios (driver (world0 db1)) !! 1 = Some envio_a
  ∧ repartidores (driver (world0 db1)) !! EnvioCreate.repartidor_id envio_b
    = Some ("Ana", "Paz", "555-0101")
  ∧ estados_envio (driver (world0 db1)) !! EnvioCreate.estado_id envio_b
    = Some "Pendiente"
  ∧ ∃ w1 w2,
      actualizar_envio mysql cfg0 1 envio_b (world0 db1)
      = (inr (Envio.mk "C" "D" "Y" (mk_datetime 2024 2 29 8 30 0 250000) 1 1 1),
         w1)
      ∧ obtener_envio mysql cfg0 1 w1
        = (inr (EnvioOut.mk 1 "C" "D" "Y"
                  (isoformat (mk_datetime 2024 2 29 8 30 0 250000))
                  "Ana" "Paz" "Pendiente"), w2).
Proof.
  split_and!; [reflexivity..|].
  exact (put_then_get cfg0 (world0 db1) 1 envio_b envio_a "Ana" "Paz"
           "555-0101" "Pendiente" eq_refl eq_refl eq_refl).
Defined.

Lemma listings_keep_rows_witness :
  ∃ rows desc w1 recs,
    ejecutar_consulta two_repartidores cfg0 "CALL sp_cbox_listar_repartidor()"
      None (world0 ([], None)) = (inr (rows, desc), w1)
    ∧ listar_repartidores two_repartidores cfg0 (world0 ([], None))
      = (inr recs, w1)
    ∧ recs = [Repartidor.mk 1 "Ana" "Paz" "555-0101";
              Repartidor.mk 2 "Luis" "Rey" "555-0102"]
    ∧ ∃ cols, desc = Some cols ∧ length recs = length rows
        ∧ Forall2 (λ row r,
             validated (Repartidor.model
                          (py_dict (zip (col_name <$> cols) row))) = inr r)
            rows recs.
Proof.
  pose (q := ejecutar_consulta two_repartidores cfg0
               "CALL sp_cbox_listar_repartidor()" None (world0 ([], None))).
  pose (rows := q.1).
  assert (Hq : q = (inr ([[VInt 1; VStr "Ana"; VStr "Paz"; VStr "555-0101"];
                          [VInt 2; VStr "Luis"; VStr "Rey"; VStr "555-0102"]],
                         Some [mk_column "repartidor_id" 3;
                               mk_column "nombre" 253;
                               mk_column "apellido" 253;
                               mk_column "telefono" 253]), q.2))
    by (vm_compute; reflexivity).
  assert (Hl : listar_repartidores two_repartidores cfg0 (world0 ([], None))
               = (inr [Repartidor.mk 1 "Ana" "Paz" "555-0101";
                       Repartidor.mk 2 "Luis" "Rey" "555-0102"], q.2))
    by (vm_compute; reflexivity).
  eexists _, _, _, _.
  split_and!; [exact Hq|exact Hl|reflexivity|].
  exact (proj2 (proj1 (proj1 (listings_keep_rows two_repartidores cfg0
                                (world0 ([], None)) _ _ _) Hq _ _) Hl)).
Defined.

(** * Further properties of the pool and of the query helper *)

Section PoolAndQueries.
Context {S : Type} (sql : aiomysql S) (cfg : config).

(** X1. When [create_pool] raises on the first [get_pool], the exception is
    passed on, the global [pool] stays [None], and the next [get_pool] calls
    [create_pool] again with the same arguments; the variable is set only by
    a call that returns. *)
Theorem get_pool_failure_retries (w : world S) msg s :
  pool w = None →
  create_pool sql (create_args cfg) (driver w) = (inl msg, s) →
  get_pool sql cfg w
  = (inl (DriverError msg),
     mk_world None s (log w ++ [EvCreatePool (create_args cfg)]))
  ∧ ∀ r w2,
      get_pool sql cfg
        (mk_world None s (log w ++ [EvCreatePool (create_args cfg)]))
      = (r, w2) →
      log w2
      = log w ++ [EvCreatePool (create_args cfg);
                  EvCreatePool (create_args cfg)]
      ∧ (r, driver w2)
        = match create_pool sql (create_args cfg) s with
          | (inr p, s') => (inr p, s')
          | (inl msg', s') => (inl (DriverError msg'), s')
          end
      ∧ pool w2 = match r with inr p => Some p | inl _ => None end.
Proof.
  intros Hnone Hfail. unfold get_pool, create_args in *. rewrite Hnone, Hfail.
  split; [done|]. intros r w2. simpl.
  destruct (create_pool sql _ s) as [[msg'|p] s'];
    intros [= <- <-]; simpl; by rewrite <- app_assoc.
Qed.

(** X2. [shutdown] does nothing when no pool was created.  Otherwise it
    calls [close] and then [wait_closed] on the pool and nothing else,
    raising what [wait_closed] raises; it leaves the global [pool] as it
    was, so a later [get_pool] still returns the closed pool and creates no
    other. *)
Theorem shutdown_closes_and_keeps (w : world S) :
  (pool w = None → shutdown sql w = (inr tt, w))
  ∧ (∀ p, pool w = Some p →
       let '(r, w') := shutdown sql w in
       log w' = log w ++ [EvPoolClose p; EvWaitClosed p]
       ∧ (r, driver w')
         = match wait_closed sql p (pool_close sql p (driver w)) with
           | (inr _, s) => (inr tt, s)
           | (inl msg, s) => (inl (DriverError msg), s)
           end
       ∧ pool w' = Some p
       ∧ get_pool sql cfg w' = (inr p, w')).
Proof.
  unfold shutdown. split; [by intros ->|]. intros p Hp. rewrite Hp.
  unfold bind, call. simpl.
  destruct (wait_closed sql p _) as [[msg|[]] s]; simpl;
    rewrite <- app_assoc; (split_and!; [done..|]);
    by apply get_pool_cached.
Qed.

(** X3. The driver calls of one [ejecutar_consulta], after the creation of
    the pool when there was none, are one of four sequences: none (the pool
    or the connection could not be had); acquire and release (opening the
    cursor raised); acquire, cursor, execute, close, release (the statement
    raised: nothing is fetched); or acquire, cursor, execute, fetchall,
    close, release.  In the first three the call raises.  So a cursor that
    was opened is always closed, and closed before its connection is
    released. *)
Theorem ejecutar_consulta_call_sequence query params (w : world S) :
  let '(r, w') := ejecutar_consulta sql cfg query params w in
  ∃ body,
    log w'
    = log w
      ++ match pool w with
         | Some _ => []
         | None => [EvCreatePool (create_args cfg)]
         end
      ++ body
    ∧ ((body = [] ∧ ∃ e, r = inl e)
       ∨ ∃ p c,
           (body = [EvAcquire p c; EvRelease p c] ∧ ∃ e, r = inl e)
           ∨ ∃ k,
               (body = [EvAcquire p c; EvCursor c k;
                        EvExecute k query params;
                        EvCursorClose k; EvRelease p c] ∧ ∃ e, r = inl e)
               ∨ body = query_calls p c k query params).
Proof.
  unfold ejecutar_consulta, with_acquire, with_cursor, bind, call, get_pool,
    query_calls, create_args.
  destruct (pool w) as [p0|] eqn:Hp;
  repeat (case_match; simplify_eq/=); rewrite <- ?app_assoc; simpl;
    first [ solve [eexists; (split; [reflexivity|]); eauto 10]
          | solve [exists []; rewrite app_nil_r; eauto 10] ].
Qed.

(** X4. When [execute] raises, [ejecutar_consulta] does not fetch: it
    closes the cursor, releases the connection on the state the close left,
    and raises the exception of [execute], or that of the close when the
    close raises as well. *)
Theorem ejecutar_consulta_execute_raises query params (w w0 : world S)
    p c k s1 s2 s3 msg :
  get_pool sql cfg w = (inr p, w0) →
  acquire sql p (driver w0) = (inr c, s1) →
  cursor sql c s1 = (inr k, s2) →
  execute sql k query params s2 = (inl msg, s3) →
  ejecutar_consulta sql cfg query params w
  = (inl (DriverError
            match cursor_close sql k s3 with
            | (inl msg', _) => msg'
            | (inr _, _) => msg
            end),
     mk_world (Some p) (release sql p c (cursor_close sql k s3).2)
       (log w0 ++ [EvAcquire p c; EvCursor c k; EvExecute k query params;
                   EvCursorClose k; EvRelease p c])).
Proof.
  intros Hg Hacq Hcur Hex.
  unfold ejecutar_consulta, with_acquire, with_cursor, bind, call.
  rewrite Hg, Hacq. simpl. rewrite Hcur. simpl. rewrite Hex. simpl.
  rewrite (get_pool_sets _ _ _ _ _ Hg).
  destruct (cursor_close sql k s3) as [[msg'|[]] s4]; simpl;
    by rewrite <- !app_assoc.
Qed.
End PoolAndQueries.

(** * Further properties of the handlers *)

Lemma for_each_inl {A B} (f : A → exn + B) l e :
  for_each f l = inl e → ∃ a, a ∈ l ∧ f a = inl e.
Proof.
  induction l as [|a l IH]; simpl; [done|].
  destruct (f a) as [e'|b] eqn:Hfa.
  - intros [= <-]. exists a. split; [apply elem_of_cons; by left|done].
  - destruct (for_each f l) as [e'|bs]; [|done].
    intros [= <-]. destruct (IH eq_refl) as (a' & Hin & Ha').
    exists a'. split; [apply elem_of_cons; by right|done].
Qed.

Lemma validated_inl {A} (v : validation A) e :
  validated v = inl e → ∃ errs, e = ValidationError errs.
Proof. destruct v; intros [= <-]. by eexists. Qed.

Section Handlers.
Context {S : Type} (sql : aiomysql S) `{Pydantic} (cfg : config).

Lemma envio_out_inl names row e :
  envio_out names row = inl e →
  e = KeyError "fecha_envio" ∨ ∃ errs, e = ValidationError errs.
Proof.
  unfold envio_out. intros Hout.
  repeat case_match; simplify_eq; eauto using validated_inl.
Qed.

(** X5. What each handler can raise.  The two lookup listings raise only
    what the driver raised, [TypeError] (a result with no description) or a
    validation error; the shipment listing also [KeyError] for a missing
    [fecha_envio] column; the shipment lookup also the 404; creating a
    shipment raises only what the driver raised, [IndexError] or a
    validation error on [envio_id]; updating and deleting raise only what
    the driver raised. *)
Theorem handler_exceptions (w : world S) e :
  ((listar_repartidores sql cfg w).1 = inl e
   ∨ (listar_estados_envio sql cfg w).1 = inl e →
   (∃ msg, e = DriverError msg) ∨ e = TypeError
   ∨ ∃ errs, e = ValidationError errs)
  ∧ ((listar_envios sql cfg w).1 = inl e →
     (∃ msg, e = DriverError msg) ∨ e = TypeError
     ∨ e = KeyError "fecha_envio" ∨ ∃ errs, e = ValidationError errs)
  ∧ (∀ envio_id, (obtener_envio sql cfg envio_id w).1 = inl e →
       (∃ msg, e = DriverError msg)
       ∨ e = HTTPException 404 "Envío no encontrado" ∨ e = TypeError
       ∨ e = KeyError "fecha_envio" ∨ ∃ errs, e = ValidationError errs)
  ∧ (∀ envio, (crear_envio sql cfg envio w).1 = inl e →
       (∃ msg, e = DriverError msg) ∨ e = IndexError
       ∨ e = ValidationError [("envio_id", Invalid)])
  ∧ (∀ envio_id envio,
       (actualizar_envio sql cfg envio_id envio w).1 = inl e
       ∨ (eliminar_envio sql cfg envio_id w).1 = inl e →
       ∃ msg, e = DriverError msg).
Proof.
  split_and!.
  - intros [Hr|Hr]; revert Hr;
      unfold listar_repartidores, listar_estados_envio, bind, lift,
        column_names;
      destruct (ejecutar_consulta _ _ _ _ w)
        as [[e'|[rows [cols|]]] w1] eqn:Hq;
      simpl; intros Hr; simplify_eq;
      try (apply ejecutar_consulta_raises in Hq; by left);
      try (right; by left);
      (apply for_each_inl in Hr as (row & _ & Hrow);
       apply validated_inl in Hrow; by right; right).
  - unfold listar_envios, bind, lift, column_names.
    destruct (ejecutar_consulta _ _ _ _ w)
      as [[e'|[rows [cols|]]] w1] eqn:Hq;
      simpl; intros Hr; simplify_eq.
    + apply ejecutar_consulta_raises in Hq. by left.
    + apply for_each_inl in Hr as (row & _ & Hrow).
      apply envio_out_inl in Hrow as [->|?]; auto.
    + right. by left.
  - intros envio_id. unfold obtener_envio, bind, lift, raise, column_names.
    destruct (ejecutar_consulta _ _ _ _ w)
      as [[e'|[[|row0 rows] desc]] w1] eqn:Hq;
      simpl; intros Hr; simplify_eq.
    + apply ejecutar_consulta_raises in Hq. by left.
    + right. by left.
    + destruct desc as [cols|]; simplify_eq/=; [|by auto].
      apply envio_out_inl in Hr as [->|?]; auto 6.
  - intros envio. unfold crear_envio, bind, lift.
    destruct (ejecutar_consulta _ _ _ _ w) as [[e'|res] w1] eqn:Hq1;
      simpl; [intros [= <-]; apply ejecutar_consulta_raises in Hq1; by left|].
    destruct (ejecutar_consulta _ _ _ _ w1) as [[e'|[rows desc]] w2] eqn:Hq2;
      simpl; [intros [= <-]; apply ejecutar_consulta_raises in Hq2; by left|].
    unfold first_cell, Envio.model.
    repeat case_match; simpl; intros Hr; simplify_eq; auto.
  - intros envio_id envio [Hr|Hr]; revert Hr;
      unfold actualizar_envio, eliminar_envio, bind, lift, ret, Envio.model;
      rewrite ?validate_int_int;
      destruct (ejecutar_consulta _ _ _ _ w) as [[e'|res] w1] eqn:Hq;
      simpl; intros Hr; simplify_eq;
      by apply ejecutar_consulta_raises in Hq.
Qed.

(** X6. The shipment lookup raises [HTTPException] only with status 404
    and its fixed message, and only when its statement ran and returned no
    rows.  When rows came back, the answer is built from the first row
    alone, whatever rows follow it, and a result with no description raises
    [TypeError]. *)
Theorem obtener_envio_404_only_when_empty envio_id (w : world S) :
  (∀ status detail w',
     obtener_envio sql cfg envio_id w = (inl (HTTPException status detail), w')
     → status = 404 ∧ detail = "Envío no encontrado"
       ∧ ∃ desc, ejecutar_consulta sql cfg "CALL sp_listar_envio_por_id(%s)"
                   (Some [VInt envio_id]) w = (inr ([], desc), w'))
  ∧ (∀ row0 rest desc w1,
       ejecutar_consulta sql cfg "CALL sp_listar_envio_por_id(%s)"
         (Some [VInt envio_id]) w = (inr (row0 :: rest, desc), w1) →
       obtener_envio sql cfg envio_id w
       = (match desc with
          | Some cols => envio_out (col_name <$> cols) row0
          | None => inl TypeError
          end, w1)).
Proof.
  split.
  - intros status detail w'. unfold obtener_envio, bind, lift, raise.
    destruct (ejecutar_consulta _ _ _ _ w)
      as [[e|[[|row0 rows] desc]] w1] eqn:Hq; simpl.
    + intros [= -> <-]. by apply ejecutar_consulta_raises in Hq as [msg ?].
    + intros [= <- <- <-]. eauto.
    + destruct desc as [cols|]; simpl; [|done].
      intros [= Hout <-]. apply envio_out_inl in Hout as [?|[errs ?]]; done.
  - intros row0 rest desc w1 Hq. unfold obtener_envio, bind, lift.
    rewrite Hq. by destruct desc.
Qed.

(** X7. A listing whose statement returned no rows answers with the empty
    list, whatever the columns of the result are; it does not raise 404 as
    the lookup does.  A listing whose result has no description raises
    [TypeError], with or without rows. *)
Theorem listings_on_empty_results query (w w1 : world S) rows desc :
  ejecutar_consulta sql cfg query None w = (inr (rows, desc), w1) →
  (query = "CALL sp_cbox_listar_repartidor()" →
   (desc = None → listar_repartidores sql cfg w = (inl TypeError, w1))
   ∧ (rows = [] → is_Some desc →
      listar_repartidores sql cfg w = (inr [], w1)))
  ∧ (query = "CALL sp_cbox_listar_estado_envio()" →
     (desc = None → listar_estados_envio sql cfg w = (inl TypeError, w1))
     ∧ (rows = [] → is_Some desc →
        listar_estados_envio sql cfg w = (inr [], w1)))
  ∧ (query = "CALL sp_listar_envio()" →
     (desc = None → listar_envios sql cfg w = (inl TypeError, w1))
     ∧ (rows = [] → is_Some desc → listar_envios sql cfg w = (inr [], w1))).
Proof.
  intros Hq.
  split_and!; intros ->;
    unfold listar_repartidores, listar_estados_envio, listar_envios, bind,
      lift;
    rewrite Hq; (split; [by intros ->|by intros -> [cols ->]]).
Qed.
End Handlers.

(** * Further properties of the driver calls *)

Section DriverCalls.
Context {S : Type} (sql : aiomysql S) `{Pydantic} (cfg : config).

Lemma sends_pure {A} (m : world S → (exn + A) * world S) :
  (∀ w, (m w).2 = w) → sends m [].
Proof.
  intros Hm w r w' Hrun. exists []. pose proof (Hm w) as Hw.
  rewrite Hrun in Hw. simpl in Hw. subst w'. by rewrite app_nil_r.
Qed.

Lemma sends_bind {A B} (m : world S → (exn + A) * world S)
    (k : A → world S → (exn + B) * world S) qs1 qs2 :
  sends m qs1 → (∀ a, sends (k a) qs2) → sends (bind m k) (qs1 ++ qs2).
Proof.
  intros Hm Hk w r w' Hrun. unfold bind in Hrun.
  destruct (m w) as [[e|a] w1] eqn:Hmw.
  - simplify_eq. destruct (Hm _ _ _ Hmw) as (delta & Hlog & Hpre & _).
    exists delta. split_and!; [done| |done].
    by apply prefix_app_r.
  - destruct (Hm _ _ _ Hmw) as (d1 & Hlog1 & _ & Hall1).
    destruct (Hk _ _ _ _ Hrun) as (d2 & Hlog2 & Hpre2 & Hall2).
    exists (d1 ++ d2). rewrite omap_app, (Hall1 a eq_refl).
    split_and!.
    + by rewrite Hlog2, Hlog1, <- app_assoc.
    + by apply prefix_app.
    + intros b Hb. by rewrite (Hall2 b Hb).
Qed.

Lemma sends_ejecutar_consulta query params :
  sends (ejecutar_consulta sql cfg query params) [(query, params)].
Proof.
  intros w r w'.
  unfold ejecutar_consulta, with_acquire, with_cursor, bind, call, get_pool.
  intros Hrun.
  repeat (case_match; simplify_eq/=); rewrite <- ?app_assoc; simpl;
    first [ solve [eexists; split_and!; [reflexivity| |]; simpl;
                   [done || apply prefix_nil|done] ]
          | solve [exists []; rewrite app_nil_r; split_and!;
                   [done|apply prefix_nil|done] ] ].
Qed.

Create HintDb handlers.
Hint Resolve sends_ejecutar_consulta : handlers.

Ltac pure_tail :=
  intros; unfold bind, lift, ret, raise; by repeat case_match.

(** X9. The statements each handler sends.  The welcome route sends
    none.  Every other handler sends its own statement, with the parameters
    shown, and [crear_envio] sends [SELECT LAST_INSERT_ID()] after it:
    a run sends an initial part of the list, in order and nothing else,
    and a handler that returns has sent all of it. *)
Theorem handlers_send :
  sends (root (S:=S)) []
  ∧ sends (listar_repartidores sql cfg)
      [("CALL sp_cbox_listar_repartidor()", None)]
  ∧ sends (listar_estados_envio sql cfg)
      [("CALL sp_cbox_listar_estado_envio()", None)]
  ∧ sends (listar_envios sql cfg) [("CALL sp_listar_envio()", None)]
  ∧ (∀ envio_id,
       sends (obtener_envio sql cfg envio_id)
         [("CALL sp_listar_envio_por_id(%s)", Some [VInt envio_id])])
  ∧ (∀ envio,
       sends (crear_envio sql cfg envio)
         [("CALL sp_crear_envio(%s, %s, %s, %s, %s, %s)",
           Some (envio_params envio));
          ("SELECT LAST_INSERT_ID()", None)])
  ∧ (∀ envio_id envio,
       sends (actualizar_envio sql cfg envio_id envio)
         [("CALL sp_actualizar_envio(%s, %s, %s, %s, %s, %s, %s)",
           Some (envio_params envio ++ [VInt envio_id]))])
  ∧ (∀ envio_id,
       sends (eliminar_envio sql cfg envio_id)
         [("CALL sp_eliminar_envio(%s)", Some [VInt envio_id])]).
Proof.
  assert (Hone : ∀ B query params
            (k : list row * option (list column)
                 → world S → (exn + B) * world S),
            sends (ejecutar_consulta sql cfg query params) [(query, params)] →
            (∀ a w, (k a w).2 = w) →
            sends (bind (ejecutar_consulta sql cfg query params) k)
              [(query, params)]).
  { intros B query params k Hq Hk.
    change [(query, params)] with ([(query, params)] ++ []).
    apply sends_bind; [done|]. intros a. by apply sends_pure. }
  split_and!; intros;
    try (apply Hone; [apply sends_ejecutar_consulta|pure_tail]).
  - by apply sends_pure.
  - unfold crear_envio.
    change [?a; ?b] with ([a] ++ [b]).
    apply sends_bind; [apply sends_ejecutar_consulta|]. intros _.
    apply Hone; [apply sends_ejecutar_consulta|pure_tail].
Qed.

(** X10. Each handler calls the driver in order, whatever else the event
    loop runs in between.  In every interleaving of the handlers of any
    events and requests, the driver calls made by one handler are: the pool
    created, or closed and awaited, with no connection of its own taken; a
    connection acquired, a cursor opened on that connection, one statement
    run on that cursor, rows fetched only after the statement, the cursor
    closed, and the connection released, before the handler acquires
    another.  A handler that has finished holds no connection. *)
Theorem handlers_follow_protocol (rs : list request) (schedule : list nat)
    (i : nat) (w : world S) :
  (∀ r, obeys Idle (.= Idle) (serve_co sql cfg r))
  ∧ ∃ st,
      protocol Idle (own_events i schedule (serve_co sql cfg <$> rs, w))
      = Some st
      ∧ ∀ r, (interleave schedule (serve_co sql cfg <$> rs, w)).1 !! i
             = Some (Done r) →
          st = Idle.
Proof.
  split; [apply obeys_serve|].
  destruct (own_events_obey i schedule (serve_co sql cfg <$> rs) w Idle)
    as (st & Hst & Hfin).
  { intros c. rewrite list_lookup_fmap.
    destruct (rs !! i) as [r|]; [|done]. intros [= <-]. apply obeys_serve. }
  exists st. split; [done|]. intros r Hdone. exact (Hfin _ Hdone).
Qed.

(** X8. How creating a shipment fails.  When [sp_crear_envio] raises, the
    exception is passed on and [SELECT LAST_INSERT_ID()] is never sent.
    When both statements ran, the first has been executed whatever
    follows; a second result with no rows, or whose first row is empty,
    raises [IndexError], and a first cell that the [int] validator rejects
    raises a validation error on [envio_id]. *)
Theorem crear_envio_failures (envio : EnvioCreate.t) (w : world S) :
  (∀ e w1,
     ejecutar_consulta sql cfg "CALL sp_crear_envio(%s, %s, %s, %s, %s, %s)"
       (Some (envio_params envio)) w = (inl e, w1) →
     crear_envio sql cfg envio w = (inl e, w1)
     ∧ ∃ delta, log w1 = log w ++ delta
         ∧ ∀ k params, EvExecute k "SELECT LAST_INSERT_ID()" params ∉ delta)
  ∧ (∀ res w1 rows desc w2,
       ejecutar_consulta sql cfg "CALL sp_crear_envio(%s, %s, %s, %s, %s, %s)"
         (Some (envio_params envio)) w = (inr res, w1) →
       ejecutar_consulta sql cfg "SELECT LAST_INSERT_ID()" None w1
       = (inr (rows, desc), w2) →
       (∃ k, EvExecute k "CALL sp_crear_envio(%s, %s, %s, %s, %s, %s)"
               (Some (envio_params envio)) ∈ log w2)
       ∧ (head rows ≫= head = None →
          crear_envio sql cfg envio w = (inl IndexError, w2))
       ∧ (∀ v, head rows ≫= head = Some v → validate_int v = None →
            crear_envio sql cfg envio w
            = (inl (ValidationError [("envio_id", Invalid)]), w2))).
Proof.
  split.
  - intros e w1 Hq. split; [unfold crear_envio, bind; by rewrite Hq|].
    destruct (sends_ejecutar_consulta _ _ _ _ _ Hq)
      as (delta & Hlog & Hpre & _).
    exists delta. split; [done|]. intros k params Hin.
    assert (("SELECT LAST_INSERT_ID()", params) ∈ omap sent delta) as Hsent.
    { apply list_elem_of_omap.
      by exists (EvExecute k "SELECT LAST_INSERT_ID()" params). }
    destruct Hpre as [rest Hrest].
    assert (("SELECT LAST_INSERT_ID()", params)
            ∈ [("CALL sp_crear_envio(%s, %s, %s, %s, %s, %s)",
                Some (envio_params envio))]) as Hone.
    { rewrite Hrest. apply elem_of_app. by left. }
    apply elem_of_cons in Hone as [Heq|Hnil]; [done|].
    by apply elem_of_nil in Hnil.
  - intros res w1 rows desc w2 Hq1 Hq2. split_and!.
    + destruct res as [rows1 desc1].
      destruct (ejecutar_consulta_log sql cfg _ _ _ _ _ Hq1)
        as (pre & p & c & k & Hlog & _).
      destruct (ejecutar_consulta_log sql cfg _ _ _ _ _ Hq2)
        as (pre' & p' & c' & k' & Hlog' & _).
      exists k. rewrite Hlog', Hlog. unfold query_calls.
      set_solver.
    + intros Hnone. unfold crear_envio, bind, lift. rewrite Hq1, Hq2.
      destruct rows as [|[|v row0] rows]; simpl in *; done.
    + intros v Hv Hint. unfold crear_envio, bind, lift. rewrite Hq1, Hq2.
      destruct rows as [|[|v' row0] rows]; simplify_eq/=.
      unfold Envio.model. by rewrite Hint.
Qed.
End DriverCalls.

(** * Further properties of the mapping from rows to records *)

Lemma py_dict_list_to_map pairs : py_dict pairs = list_to_map (reverse pairs).
Proof.
  induction pairs as [|[k v] pairs IH] using rev_ind; [done|].
  by rewrite py_dict_snoc, reverse_snoc, IH.
Qed.

Lemma py_dict_perm pairs pairs' :
  NoDup (pairs.*1) → pairs ≡ₚ pairs' → py_dict pairs = py_dict pairs'.
Proof.
  intros Hnd Hperm. rewrite !py_dict_list_to_map.
  apply list_to_map_proper.
  - by rewrite fmap_reverse, reverse_Permutation.
  - by rewrite !reverse_Permutation.
Qed.

Lemma NoDup_fst_zip {A B} (l : list A) (k : list B) :
  NoDup l → NoDup ((zip l k).*1).
Proof.
  intros Hnd. revert k.
  induction Hnd as [|a l Hin Hnd IH]; intros k; [constructor|].
  destruct k as [|b k]; simpl; [constructor|].
  constructor; [|apply IH].
  intros Hel. apply Hin.
  apply list_elem_of_fmap in Hel as ([a' b'] & -> & Hel). simpl.
  by apply elem_of_zip_l in Hel.
Qed.

(** A pair in the middle of the list only matters for its own key. *)
Lemma py_dict_lookup_middle l1 l2 name v k :
  k ≠ name →
  py_dict (l1 ++ (name, v) :: l2) !! k = py_dict (l1 ++ l2) !! k.
Proof.
  intros Hne. induction l2 as [|[k' v'] l2 IH] using rev_ind.
  - rewrite app_nil_r, py_dict_snoc. by rewrite lookup_insert_ne.
  - rewrite app_comm_cons, (app_assoc l1 (_ :: l2)), (app_assoc l1 l2),
      !py_dict_snoc.
    destruct (decide (k' = k)) as [->|Hk].
    + by rewrite !lookup_insert_eq.
    + by rewrite !lookup_insert_ne.
Qed.

Section Records.
Context `{Pydantic}.

Lemma field_ext {A} (validator : value → option A) kwargs kwargs' name :
  kwargs !! name = kwargs' !! name →
  field validator kwargs name = field validator kwargs' name.
Proof. unfold field. by intros ->. Qed.

Lemma EnvioOut_model_ext kwargs kwargs' :
  (∀ name ty, (name, ty) ∈ EnvioOut_fields →
     kwargs !! name = kwargs' !! name) →
  EnvioOut.model kwargs = EnvioOut.model kwargs'.
Proof.
  intros Hext.
  pose proof (λ name ty Hin, Hext name ty
                (proj2 (list_elem_of_In _ _) Hin)) as Hall.
  unfold EnvioOut.model.
  rewrite (field_ext _ kwargs kwargs' "envio_id"),
    (field_ext _ kwargs kwargs' "remitente"),
    (field_ext _ kwargs kwargs' "destinatario"),
    (field_ext _ kwargs kwargs' "direccion_envio"),
    (field_ext _ kwargs kwargs' "fecha_envio"),
    (field_ext _ kwargs kwargs' "nombre_repartidor"),
    (field_ext _ kwargs kwargs' "apellido_repartidor"),
    (field_ext _ kwargs kwargs' "estado");
    [done|eapply Hall; simpl; tauto..].
Qed.

Lemma Repartidor_model_ext kwargs kwargs' :
  (∀ name ty, (name, ty) ∈ Repartidor_fields →
     kwargs !! name = kwargs' !! name) →
  Repartidor.model kwargs = Repartidor.model kwargs'.
Proof.
  intros Hext.
  pose proof (λ name ty Hin, Hext name ty
                (proj2 (list_elem_of_In _ _) Hin)) as Hall.
  unfold Repartidor.model.
  rewrite (field_ext _ kwargs kwargs' "repartidor_id"),
    (field_ext _ kwargs kwargs' "nombre"),
    (field_ext _ kwargs kwargs' "apellido"),
    (field_ext _ kwargs kwargs' "telefono");
    [done|eapply Hall; simpl; tauto..].
Qed.

Lemma EstadoEnvio_model_ext kwargs kwargs' :
  (∀ name ty, (name, ty) ∈ EstadoEnvio_fields →
     kwargs !! name = kwargs' !! name) →
  EstadoEnvio.model kwargs = EstadoEnvio.model kwargs'.
Proof.
  intros Hext.
  pose proof (λ name ty Hin, Hext name ty
                (proj2 (list_elem_of_In _ _) Hin)) as Hall.
  unfold EstadoEnvio.model.
  rewrite (field_ext _ kwargs kwargs' "estado_id"),
    (field_ext _ kwargs kwargs' "nombre_estado");
    [done|eapply Hall; simpl; tauto..].
Qed.

(** What [envio_out] does depends on the dictionary of the row only. *)
Lemma envio_out_ext names row names' row' :
  (∀ name ty, (name, ty) ∈ EnvioOut_fields →
     py_dict (zip names row) !! name = py_dict (zip names' row') !! name) →
  envio_out names row = envio_out names' row'.
Proof.
  intros Hext. unfold envio_out.
  rewrite <- (Hext "fecha_envio" TStr) by (apply list_elem_of_In; simpl; tauto).
  destruct (py_dict (zip names row) !! "fecha_envio") as [[| | |d]|];
    try done; f_equal; apply EnvioOut_model_ext; try done.
  intros name ty Hin. destruct (decide (name = "fecha_envio")) as [->|Hne].
  - by rewrite !lookup_insert_eq.
  - rewrite !lookup_insert_ne by done. by eapply Hext.
Qed.

(** X11. Records are built by column name, not by position: when the
    column names are distinct, a result whose columns come in another
    order, with the values moved along, gives the same shipment record (or
    the same exception), the same [Repartidor] and the same [EstadoEnvio]. *)
Theorem records_ignore_column_order (names names' : list string)
    (row row' : row) :
  NoDup names → zip names row ≡ₚ zip names' row' →
  envio_out names row = envio_out names' row'
  ∧ Repartidor.model (py_dict (zip names row))
    = Repartidor.model (py_dict (zip names' row'))
  ∧ EstadoEnvio.model (py_dict (zip names row))
    = EstadoEnvio.model (py_dict (zip names' row')).
Proof.
  intros Hnd Hperm.
  assert (py_dict (zip names row) = py_dict (zip names' row')) as Heq
    by (apply py_dict_perm; [by apply NoDup_fst_zip|done]).
  split_and!; [|by rewrite Heq..].
  apply envio_out_ext. intros name ty _. by rewrite Heq.
Qed.

(** X12. A column that is no field of the model is ignored: with such a
    column inserted anywhere in the result, the shipment record, the
    [Repartidor] and the [EstadoEnvio] built from a row (or the exception
    raised) are what they are without it. *)
Theorem extra_columns_are_ignored (names1 names2 : list string)
    (row1 row2 : row) name v :
  length names1 = length row1 →
  (name ∉ EnvioOut_fields.*1 →
   envio_out (names1 ++ name :: names2) (row1 ++ v :: row2)
   = envio_out (names1 ++ names2) (row1 ++ row2))
  ∧ (name ∉ Repartidor_fields.*1 →
     Repartidor.model
       (py_dict (zip (names1 ++ name :: names2) (row1 ++ v :: row2)))
     = Repartidor.model (py_dict (zip (names1 ++ names2) (row1 ++ row2))))
  ∧ (name ∉ EstadoEnvio_fields.*1 →
     EstadoEnvio.model
       (py_dict (zip (names1 ++ name :: names2) (row1 ++ v :: row2)))
     = EstadoEnvio.model (py_dict (zip (names1 ++ names2) (row1 ++ row2)))).
Proof.
  intros Hlen.
  assert (∀ (fields : list (string * field_type)) k ty,
            name ∉ fields.*1 → (k, ty) ∈ fields →
            py_dict (zip (names1 ++ name :: names2) (row1 ++ v :: row2)) !! k
            = py_dict (zip (names1 ++ names2) (row1 ++ row2)) !! k) as Hsame.
  { intros fields k ty Hno Hin.
    rewrite !zip_with_app by done. simpl.
    apply py_dict_lookup_middle. intros ->. apply Hno.
    apply list_elem_of_fmap. by exists (name, ty). }
  split_and!; intros Hno.
  - apply envio_out_ext. intros k ty. by apply Hsame.
  - apply Repartidor_model_ext. intros k ty. by apply Hsame.
  - apply EstadoEnvio_model_ext. intros k ty. by apply Hsame.
Qed.

(** The errors of a validation *)

Lemma errors_of_vap {A B} (f : validation (A → B)) x :
  errors_of (f <*> x) = errors_of f ++ errors_of x.
Proof. destruct f, x; simpl; by rewrite ?app_nil_r. Qed.

Lemma errors_of_field_int kwargs name :
  errors_of (field validate_int kwargs name) = failing [(name, TInt)] kwargs.
Proof.
  unfold field, failing, coerce. simpl.
  destruct (kwargs !! name) as [v|]; [|done].
  by destruct (validate_int v).
Qed.

Lemma errors_of_field_str kwargs name :
  errors_of (field validate_str kwargs name) = failing [(name, TStr)] kwargs.
Proof.
  unfold field, failing, coerce. simpl.
  destruct (kwargs !! name) as [v|]; [|done].
  by destruct (validate_str v).
Qed.

Lemma reports_field {A} (validator : value → option A) kwargs name :
  reports (field validator kwargs name).
Proof. unfold reports, field. by repeat case_match. Qed.

Lemma reports_vap {A B} (f : validation (A → B)) x :
  reports f → reports x → reports (f <*> x).
Proof.
  unfold reports.
  destruct f as [[|e es]|f], x as [[|e' es']|x]; simpl; congruence.
Qed.

Lemma reports_inl {A} (v : validation A) errs :
  reports v → v = inl errs ↔ errs ≠ [] ∧ errs = errors_of v.
Proof.
  unfold reports. destruct v as [errs'|a]; simpl.
  - intros Hne. split; [intros [= <-]; split; [congruence|done]|].
    by intros [_ ->].
  - intros _. split; [done|]. by intros [? ->].
Qed.

(** X13. A model that fails to validate reports exactly its failing
    fields: the error list is not empty and holds, in the order the fields
    are declared, one entry for each field that is absent ([Missing]) or
    whose value its validator rejects ([Invalid]), and nothing else. *)
Theorem validation_reports_failing_fields (kwargs : gmap string value) errs :
  (EnvioOut.model kwargs = inl errs
   ↔ errs ≠ [] ∧ errs = failing EnvioOut_fields kwargs)
  ∧ (Repartidor.model kwargs = inl errs
     ↔ errs ≠ [] ∧ errs = failing Repartidor_fields kwargs)
  ∧ (EstadoEnvio.model kwargs = inl errs
     ↔ errs ≠ [] ∧ errs = failing EstadoEnvio_fields kwargs).
Proof.
  unfold EnvioOut.model, Repartidor.model, EstadoEnvio.model.
  split_and!;
    (etrans; [apply reports_inl; repeat apply reports_vap;
              first [apply reports_field|by unfold reports]|]);
    rewrite !errors_of_vap, ?errors_of_field_int, !errors_of_field_str;
    simpl; unfold failing; simpl; by rewrite ?app_nil_r, <- ?app_assoc.
Qed.
End Records.

(** * Further properties of the configuration and of timestamps *)

Ltac string_app :=
  repeat first
    [ progress change (String ?c ?s +:+ ?t) with (String c (s +:+ t)) in *
    | progress change ("" +:+ ?t) with t in * ].

Section IntOfStr.
Context `{Interpreter}.

Lemma utf8_decode_ascii c s :
  byte c < 128 → utf8_decode (String c s) = byte c :: utf8_decode s.
Proof.
  intros Hc. cbn [utf8_decode]. cbv zeta.
  by rewrite (proj2 (Z.ltb_lt _ _) Hc).
Qed.

Lemma pretty_N_char_digit m :
  (m < 10)%N →
  byte (pretty_N_char m) < 128
  ∧ classify (byte (pretty_N_char m)) = IDigit (Z.of_N m).
Proof.
  intros Hm.
  assert (m = 0 ∨ m = 1 ∨ m = 2 ∨ m = 3 ∨ m = 4 ∨ m = 5 ∨ m = 6 ∨ m = 7
          ∨ m = 8 ∨ m = 9)%N as Hcases by lia.
  repeat destruct Hcases as [->|Hcases]; try subst m; by vm_compute.
Qed.

(** The digits of [x], most significant first, are read back as [x]. *)
Lemma scan_digits_pretty_N_go x s :
  ∃ k : nat,
    String.length (pretty_N_go x s) = (k + String.length s)%nat
    ∧ (x = 0%N → k = 0%nat)
    ∧ ((0 < x)%N → (0 < k)%nat ∧ 10 ^ (Z.of_nat k - 1) ≤ Z.of_N x)
    ∧ ∀ prev acc count,
        scan_digits (classify <$> utf8_decode (pretty_N_go x s)) prev acc
          count
        = scan_digits (classify <$> utf8_decode s)
            (if decide (x = 0)%N then prev else true)
            (acc * 10 ^ Z.of_nat k + Z.of_N x) (count + Z.of_nat k).
Proof.
  revert s. induction (N.lt_wf_0 x) as [x _ IH]; intros s.
  destruct (decide (x = 0)%N) as [->|Hx].
  - exists 0%nat. rewrite pretty_N_go_0. split_and!; [done|done|lia|].
    intros prev acc count. f_equal; simpl; lia.
  - rewrite pretty_N_go_step by lia.
    destruct (IH (x `div` 10)%N (N.div_lt x 10 ltac:(lia) eq_refl)
                (String (pretty_N_char (x `mod` 10)) s))
      as (k & Hlen & Hzero & Hlow & Hscan).
    destruct (pretty_N_char_digit (x `mod` 10)%N) as [Hb Hd];
      [by apply N.mod_lt|].
    exists (Datatypes.S k). rewrite Hlen. simpl String.length.
    assert (Z.of_N x = 10 * Z.of_N (x `div` 10) + Z.of_N (x `mod` 10))
      as Hdm by (rewrite (N.div_mod x 10) at 1 by done; lia).
    split_and!; [lia|lia| |].
    + intros _. split; [lia|]. rewrite Nat2Z.inj_succ.
      replace (Z.succ (Z.of_nat k) - 1) with (Z.of_nat k) by lia.
      destruct (decide (x `div` 10 = 0)%N) as [Hq|Hq].
      * rewrite (Hzero Hq). simpl. lia.
      * assert (0 < x `div` 10)%N as Hpos by by apply N.neq_0_lt_0.
        destruct (Hlow Hpos) as [Hk Hlow'].
        replace (Z.of_nat k) with (Z.succ (Z.of_nat k - 1)) by lia.
        rewrite Z.pow_succ_r by lia.
        pose proof (N2Z.is_nonneg (x `mod` 10)) as Hr.
        revert Hlow' Hdm Hr.
        generalize (Z.of_N (x `div` 10)) (Z.of_N (x `mod` 10)) (Z.of_N x)
          (10 ^ (Z.of_nat k - 1)).
        intros; lia.
    + intros prev acc count. rewrite Hscan, utf8_decode_ascii by done.
      rewrite fmap_cons, Hd. cbn [scan_digits].
      rewrite Nat2Z.inj_succ, Z.pow_succ_r by lia.
      destruct (decide (x `div` 10 = 0)%N); f_equal; lia.
Qed.

Lemma scan_digits_head l n count rest :
  scan_digits l false 0 0 = Some (n, count, rest) →
  ∃ d l', l = IDigit d :: l'.
Proof. destruct l as [|[] l]; simpl; eauto; done. Qed.

Lemma py_int_plain s l n count :
  classify <$> utf8_decode s = l →
  scan_digits l false 0 0 = Some (n, count, []) →
  py_int s = if exceeds_limit count then None else Some n.
Proof.
  intros Hl Hscan. unfold py_int. rewrite Hl.
  destruct (scan_digits_head _ _ _ _ Hscan) as (d & l' & ->).
  cbn [skip_spaces]. cbv beta iota zeta. rewrite Hscan.
  cbn [skip_spaces]. destruct (exceeds_limit count); [done|].
  f_equal; lia.
Qed.

Lemma py_int_minus s l n count :
  classify <$> utf8_decode s = l →
  scan_digits l false 0 0 = Some (n, count, []) →
  py_int (String "-" s) = if exceeds_limit count then None else Some (- n).
Proof.
  intros Hl Hscan. unfold py_int. rewrite utf8_decode_ascii by done.
  rewrite fmap_cons, Hl. change (classify (byte "-")) with IMinus.
  cbn [skip_spaces]. cbv beta iota zeta. rewrite Hscan.
  cbn [skip_spaces]. destruct (exceeds_limit count); [done|].
  f_equal; lia.
Qed.

Lemma py_str_pos p : py_str (Z.pos p) = pretty_N_go (N.pos p) "".
Proof.
  unfold py_str, pretty, pretty_Z, pretty, pretty_positive, pretty, pretty_N.
  by rewrite decide_False.
Qed.

Lemma py_str_neg p : py_str (Z.neg p) = String "-" (pretty_N_go (N.pos p) "").
Proof.
  unfold py_str, pretty, pretty_Z, pretty, pretty_positive, pretty, pretty_N.
  by rewrite decide_False.
Qed.

(** [int(str(n))] is [n], unless [n] has more digits than the
    interpreter converts. *)
Lemma py_int_py_str n :
  py_int (py_str n)
  = if exceeds_limit (decimal_digits n) then None else Some n.
Proof.
  unfold decimal_digits. destruct n as [|p|p]; [done|..];
    change (Z.abs (Z.pos p)) with (Z.pos p);
    change (Z.abs (Z.neg p)) with (Z.pos p);
    rewrite ?py_str_neg, py_str_pos;
    destruct (scan_digits_pretty_N_go (N.pos p) "")
      as (k & Hlen & _ & _ & Hscan);
    pose proof (Hscan false 0 0) as Hs; simpl in Hs; rewrite Hlen;
    simpl String.length; rewrite Nat.add_0_r.
  - by rewrite (py_int_plain _ _ _ _ eq_refl Hs).
  - by rewrite (py_int_minus _ _ _ _ eq_refl Hs).
Qed.

Lemma decimal_digits_bound n :
  Z.abs n < 10 ^ 640 → exceeds_limit (decimal_digits n) = false.
Proof.
  intros Hn. unfold exceeds_limit.
  assert (decimal_digits n ≤ 640) as Hd; [|by rewrite (proj2 (Z.ltb_ge _ _) Hd)].
  unfold decimal_digits.
  destruct (Z.abs n) as [|p|p] eqn:Habs; [simpl; lia| |lia].
  rewrite py_str_pos.
  destruct (scan_digits_pretty_N_go (N.pos p) "") as (k & -> & _ & Hlow & _).
  destruct Hlow as [Hk Hlow]; [lia|]. simpl String.length.
  rewrite Nat.add_0_r.
  destruct (decide (Z.of_nat k ≤ 640)) as [|Hbig]; [done|]. exfalso.
  assert (10 ^ 640 ≤ 10 ^ (Z.of_nat k - 1)); [apply Z.pow_le_mono_r; lia|].
  simpl in Hlow. lia.
Qed.

(** X14. The port is read back as any integer its decimal text denotes,
    with no check of its range, negative or beyond 65535 included, up to
    the interpreter's limit on conversions: the module loads with that
    integer as [DB_PORT], unless the integer has more digits than the
    interpreter converts, when the import raises [ValueError].  An integer
    of at most 640 digits loads under every interpreter. *)
Theorem load_config_reads_port (environ : gmap string string) (n : Z) :
  environ !! "DB_PORT" = Some (py_str n) →
  load_config environ
  = (if exceeds_limit (decimal_digits n) then inl ValueError
     else inr (mk_config (environ !! "DB_HOST") n (environ !! "DB_USER")
                 (environ !! "DB_PASSWORD") (environ !! "DB_NAME")))
  ∧ (Z.abs n < 10 ^ 640 →
     load_config environ
     = inr (mk_config (environ !! "DB_HOST") n (environ !! "DB_USER")
              (environ !! "DB_PASSWORD") (environ !! "DB_NAME"))).
Proof.
  intros Hport.
  assert (load_config environ
          = if exceeds_limit (decimal_digits n) then inl ValueError
            else inr (mk_config (environ !! "DB_HOST") n
                        (environ !! "DB_USER") (environ !! "DB_PASSWORD")
                        (environ !! "DB_NAME"))) as Hload.
  { unfold load_config. rewrite Hport, py_int_py_str.
    by destruct (exceeds_limit _). }
  split; [done|]. intros Hn. by rewrite Hload, decimal_digits_bound.
Qed.
End IntOfStr.

(** What [int] makes of some texts under CPython 3.11: white space around
    the number, a sign and single underscores between digits are accepted,
    and so are the no-break space and the decimal digits of other scripts
    (here the Arabic-Indic ones, in UTF-8); an underscore at the end or
    doubled, a prefix, a fraction, the empty text and a leading U+001C are
    not. *)
Example py_int_examples :
  py_int "3306" = Some 3306
  ∧ py_int (String (ascii_of_nat 9) (" +33_06" +:+ String (ascii_of_nat 10) ""))
    = Some 3306
  ∧ py_int "-0" = Some 0
  ∧ py_int "3_" = None
  ∧ py_int "3__3" = None
  ∧ py_int "" = None
  ∧ py_int "0x10" = None
  ∧ py_int "3306.0" = None
  ∧ py_int (String (ascii_of_nat 28) "3306") = None
  ∧ py_int (String (ascii_of_nat 194) (String (ascii_of_nat 160) "3306"))
    = Some 3306
  ∧ py_int (String (ascii_of_nat 217) (String (ascii_of_nat 163)
             (String (ascii_of_nat 217) (String (ascii_of_nat 163)
               (String (ascii_of_nat 217) (String (ascii_of_nat 160)
                 (String (ascii_of_nat 217) (String (ascii_of_nat 166) ""))))))))
    = Some 3306
  ∧ py_int (py_str (-65536)) = Some (-65536).
Proof. split_and!; vm_compute; reflexivity. Qed.

(** Timestamps *)

Lemma digit_inj a b : digit a = digit b → a mod 10 = b mod 10.
Proof.
  unfold digit. intros Heq%(f_equal nat_of_ascii).
  pose proof (Z.mod_pos_bound a 10 eq_refl).
  pose proof (Z.mod_pos_bound b 10 eq_refl).
  rewrite !nat_ascii_embedding in Heq by lia. lia.
Qed.

Lemma zero_padded_length w n acc :
  String.length (zero_padded w n acc) = (w + String.length acc)%nat.
Proof.
  revert n acc. induction w as [|w IH]; intros n acc; simpl; [done|].
  rewrite IH. simpl. lia.
Qed.

Lemma zero_padded_inj w a b acc acc' :
  0 ≤ a < 10 ^ Z.of_nat w → 0 ≤ b < 10 ^ Z.of_nat w →
  String.length acc = String.length acc' →
  zero_padded w a acc = zero_padded w b acc' → a = b ∧ acc = acc'.
Proof.
  revert a b acc acc'. induction w as [|w IH]; intros a b acc acc' Ha Hb Hlen.
  - simpl in *. intros ->. split; [lia|done].
  - rewrite Nat2Z.inj_succ, Z.pow_succ_r in Ha, Hb by lia.
    cbn [zero_padded]. intros Heq.
    apply IH in Heq as [Hdiv [= Hd ->]].
    + apply digit_inj in Hd. split; [|done].
      rewrite (Z.div_mod a 10), (Z.div_mod b 10) by done. lia.
    + split; [apply Z.div_pos; lia|apply Z.div_lt_upper_bound; lia].
    + split; [apply Z.div_pos; lia|apply Z.div_lt_upper_bound; lia].
    + simpl. by rewrite Hlen.
Qed.

Lemma fmt_length w n : String.length (fmt w n) = w.
Proof. unfold fmt. rewrite zero_padded_length. simpl. lia. Qed.

Lemma fmt_inj w a b :
  0 ≤ a < 10 ^ Z.of_nat w → 0 ≤ b < 10 ^ Z.of_nat w →
  fmt w a = fmt w b → a = b.
Proof.
  intros Ha Hb Heq.
  by apply (zero_padded_inj w a b "" "") in Heq as [? _].
Qed.

Lemma string_app_inj_length (s1 s2 t1 t2 : string) :
  String.length s1 = String.length s2 →
  s1 +:+ t1 = s2 +:+ t2 → s1 = s2 ∧ t1 = t2.
Proof.
  revert s2. induction s1 as [|c s1 IH]; intros [|c' s2] Hlen; simpl in *;
    string_app; try done.
  intros [= -> Heq]. apply IH in Heq as [-> ->]; [done|lia].
Qed.

(** X15. The text put in [fecha_envio] loses nothing of the timestamp: two
    timestamps with the same [isoformat()] text are the same timestamp. *)
Theorem isoformat_inj d1 d2 :
  datetime_ok d1 = true → datetime_ok d2 = true →
  isoformat d1 = isoformat d2 → d1 = d2.
Proof.
  unfold datetime_ok. rewrite !andb_true_iff, !Z.leb_le.
  destruct d1 as [y1 mo1 dd1 h1 mi1 s1 us1], d2 as [y2 mo2 dd2 h2 mi2 s2 us2].
  cbn [year month day hour minute second microsecond].
  intros Hok1 Hok2. unfold isoformat.
  cbn [year month day hour minute second microsecond].
  intros Heq.
  repeat (apply string_app_inj_length in Heq as [? Heq];
          [|by rewrite ?fmt_length]).
  repeat match goal with
         | Hf : fmt _ _ = fmt _ _ |- _ =>
             apply fmt_inj in Hf; [subst|simpl; lia..]
         end.
  f_equal.
  destruct (Z.eqb_spec us1 0) as [->|Hne1], (Z.eqb_spec us2 0) as [->|Hne2];
    try done.
  apply (string_app_inj_length "." ".") in Heq as [_ Heq]; [|done].
  apply fmt_inj in Heq; [done|simpl; lia..].
Qed.

(** * The further properties on concrete runs *)

Lemma get_pool_failure_retries_witness :
  pool (world0 tt) = None
  ∧ create_pool unreachable_server (create_args cfg0) (driver (world0 tt))
    = (inl "can't connect to MySQL server", tt)
  ∧ get_pool unreachable_server cfg0 (world0 tt)
    = (inl (DriverError "can't connect to MySQL server"),
       mk_world None tt [EvCreatePool (create_args cfg0)]).
Proof.
  split; [reflexivity|]. split; [reflexivity|].
  exact (proj1 (get_pool_failure_retries unreachable_server cfg0 (world0 tt)
                  "can't connect to MySQL server" tt eq_refl eq_refl)).
Defined.

Lemma shutdown_closes_and_keeps_witness :
  (pool (world0 db0) = None
   ∧ shutdown mysql (world0 db0) = (inr tt, world0 db0))
  ∧ (pool (mk_world (Some 0%nat) db0 []) = Some 0%nat
     ∧ let '(r, w') := shutdown mysql (mk_world (Some 0%nat) db0 []) in
       log w' = [] ++ [EvPoolClose 0%nat; EvWaitClosed 0%nat]
       ∧ (r, driver w')
         = match wait_closed mysql 0%nat (pool_close mysql 0%nat db0) with
           | (inr _, s) => (inr tt, s)
           | (inl msg, s) => (inl (DriverError msg), s)
           end
       ∧ pool w' = Some 0%nat
       ∧ get_pool mysql cfg0 w' = (inr 0%nat, w')).
Proof.
  split.
  - split; [reflexivity|].
    exact (proj1 (shutdown_closes_and_keeps mysql cfg0 (world0 db0)) eq_refl).
  - split; [reflexivity|].
    exact (proj2 (shutdown_closes_and_keeps mysql cfg0
                    (mk_world (Some 0%nat) db0 [])) 0%nat eq_refl).
Defined.

Lemma ejecutar_consulta_execute_raises_witness :
  get_pool failing_server cfg0 (world0 ([], None))
  = (inr 0%nat,
     mk_world (Some 0%nat) ([], None) [EvCreatePool (create_args cfg0)])
  ∧ acquire failing_server 0%nat ([], None) = (inr 0%nat, ([], None))
  ∧ cursor failing_server 0%nat ([], None) = (inr 0%nat, ([], None))
  ∧ execute failing_server 0%nat "CALL sp_listar_envio()" None ([], None)
    = (inl "server has gone away", ([], None))
  ∧ ejecutar_consulta failing_server cfg0 "CALL sp_listar_envio()" None
      (world0 ([], None))
    = (inl (DriverError "server has gone away"),
       mk_world (Some 0%nat) ([], None)
         [EvCreatePool (create_args cfg0); EvAcquire 0%nat 0%nat;
          EvCursor 0%nat 0%nat;
          EvExecute 0%nat "CALL sp_listar_envio()" None;
          EvCursorClose 0%nat; EvRelease 0%nat 0%nat]).
Proof.
  split_and!; [reflexivity..|].
  exact (ejecutar_consulta_execute_raises failing_server cfg0
           "CALL sp_listar_envio()" None (world0 ([], None))
           (mk_world (Some 0%nat) ([], None) [EvCreatePool (create_args cfg0)])
           0%nat 0%nat 0%nat ([], None) ([], None) ([], None)
           "server has gone away" eq_refl eq_refl eq_refl eq_refl).
Defined.

Lemma handler_exceptions_witness :
  (obtener_envio mysql cfg0 5 (world0 db1)).1
  = inl (HTTPException 404 "Envío no encontrado")
  ∧ ((∃ msg, HTTPException 404 "Envío no encontrado" = DriverError msg)
     ∨ HTTPException 404 "Envío no encontrado"
       = HTTPException 404 "Envío no encontrado"
     ∨ HTTPException 404 "Envío no encontrado" = TypeError
     ∨ HTTPException 404 "Envío no encontrado" = KeyError "fecha_envio"
     ∨ ∃ errs, HTTPException 404 "Envío no encontrado"
               = ValidationError errs).
Proof.
  assert (Hr : (obtener_envio mysql cfg0 5 (world0 db1)).1
               = inl (HTTPException 404 "Envío no encontrado"))
    by (vm_compute; reflexivity).
  split; [exact Hr|].
  exact (proj1 (proj2 (proj2 (handler_exceptions mysql cfg0 (world0 db1)
                                (HTTPException 404 "Envío no encontrado"))))
           5 Hr).
Defined.

Lemma obtener_envio_404_only_when_empty_witness :
  ∃ w',
    obtener_envio mysql cfg0 5 (world0 db1)
    = (inl (HTTPException 404 "Envío no encontrado"), w')
    ∧ 404 = 404 ∧ "Envío no encontrado" = "Envío no encontrado"
    ∧ ∃ desc, ejecutar_consulta mysql cfg0 "CALL sp_listar_envio_por_id(%s)"
                (Some [VInt 5]) (world0 db1) = (inr ([], desc), w').
Proof.
  pose (w' := (obtener_envio mysql cfg0 5 (world0 db1)).2).
  exists w'.
  assert (Hr : obtener_envio mysql cfg0 5 (world0 db1)
               = (inl (HTTPException 404 "Envío no encontrado"), w'))
    by (vm_compute; reflexivity).
  split; [exact Hr|].
  exact (proj1 (obtener_envio_404_only_when_empty mysql cfg0 5 (world0 db1))
           404 "Envío no encontrado" w' Hr).
Defined.

Lemma listings_on_empty_results_witness :
  ∃ w1,
    ejecutar_consulta empty_server cfg0 "CALL sp_listar_envio()" None
      (world0 ([], None)) = (inr ([], Some []), w1)
    ∧ listar_envios empty_server cfg0 (world0 ([], None)) = (inr [], w1).
Proof.
  pose (w1 := (ejecutar_consulta empty_server cfg0 "CALL sp_listar_envio()"
                 None (world0 ([], None))).2).
  exists w1.
  assert (Hq : ejecutar_consulta empty_server cfg0 "CALL sp_listar_envio()"
                 None (world0 ([], None)) = (inr ([], Some []), w1))
    by (vm_compute; reflexivity).
  split; [exact Hq|].
  exact (proj2 (proj2 (proj2 (listings_on_empty_results empty_server cfg0
                                "CALL sp_listar_envio()" (world0 ([], None))
                                w1 [] (Some []) Hq)) eq_refl)
           eq_refl (ex_intro _ [] eq_refl)).
Defined.

Lemma crear_envio_failures_witness :
  ∃ w1,
    ejecutar_consulta failing_server cfg0
      "CALL sp_crear_envio(%s, %s, %s, %s, %s, %s)"
      (Some (envio_params envio_a)) (world0 ([], None))
    = (inl (DriverError "server has gone away"), w1)
    ∧ crear_envio failing_server cfg0 envio_a (world0 ([], None))
      = (inl (DriverError "server has gone away"), w1)
    ∧ ∃ delta, log w1 = log (world0 ([], None) : world result_set) ++ delta
        ∧ ∀ k params, EvExecute k "SELECT LAST_INSERT_ID()" params ∉ delta.
Proof.
  pose (w1 := (ejecutar_consulta failing_server cfg0
                 "CALL sp_crear_envio(%s, %s, %s, %s, %s, %s)"
                 (Some (envio_params envio_a)) (world0 ([], None))).2).
  exists w1.
  assert (Hq : ejecutar_consulta failing_server cfg0
                 "CALL sp_crear_envio(%s, %s, %s, %s, %s, %s)"
                 (Some (envio_params envio_a)) (world0 ([], None))
               = (inl (DriverError "server has gone away"), w1))
    by (vm_compute; reflexivity).
  split; [exact Hq|].
  exact (proj1 (crear_envio_failures failing_server cfg0 envio_a
                  (world0 ([], None))) _ w1 Hq).
Defined.

Lemma handlers_follow_protocol_witness :
  let rs := [Startup; GetRepartidores; GetEstadosEnvio] in
  let schedule :=
    [0; 0; 1; 2; 1; 2; 1; 2; 1; 2; 1; 2; 1; 2; 1; 2; 1; 2]%nat in
  let st := (serve_co numbering_server cfg0 <$> rs, world0 0%nat) in
  own_events 1 schedule st
  = [EvAcquire 0%nat 1%nat; EvCursor 1%nat 3%nat;
     EvExecute 3%nat "CALL sp_cbox_listar_repartidor()" None;
     EvFetchall 3%nat; EvCursorClose 3%nat; EvRelease 0%nat 1%nat]
  ∧ log (interleave schedule st).2
    = [EvCreatePool (create_args cfg0);
       EvAcquire 0%nat 1%nat; EvAcquire 0%nat 2%nat;
       EvCursor 1%nat 3%nat; EvCursor 2%nat 4%nat;
       EvExecute 3%nat "CALL sp_cbox_listar_repartidor()" None;
       EvExecute 4%nat "CALL sp_cbox_listar_estado_envio()" None;
       EvFetchall 3%nat; EvFetchall 4%nat;
       EvCursorClose 3%nat; EvCursorClose 4%nat;
       EvRelease 0%nat 1%nat; EvRelease 0%nat 2%nat]
  ∧ protocol Idle (log (interleave schedule st).2) = None
  ∧ (interleave schedule st).1 !! 1%nat = Some (Done (inr tt))
  ∧ ∃ fin, protocol Idle (own_events 1 schedule st) = Some fin ∧ fin = Idle.
Proof.
  cbv zeta. split_and!; [vm_compute; reflexivity..|].
  destruct (proj2 (handlers_follow_protocol numbering_server cfg0
                     [Startup; GetRepartidores; GetEstadosEnvio]
                     [0; 0; 1; 2; 1; 2; 1; 2; 1; 2; 1; 2; 1; 2; 1; 2; 1; 2]%nat
                     1%nat (world0 0%nat)))
    as (fin & Hfin & Hdone).
  exists fin. split; [exact Hfin|].
  apply (Hdone (inr tt)). vm_compute. reflexivity.
Defined.

Lemma records_ignore_column_order_witness :
  NoDup ["estado_id"; "nombre_estado"]
  ∧ zip ["estado_id"; "nombre_estado"] [VInt 1; VStr "Pendiente"]
    ≡ₚ zip ["nombre_estado"; "estado_id"] [VStr "Pendiente"; VInt 1]
  ∧ EstadoEnvio.model
      (py_dict (zip ["estado_id"; "nombre_estado"] [VInt 1; VStr "Pendiente"]))
    = EstadoEnvio.model
        (py_dict (zip ["nombre_estado"; "estado_id"]
                    [VStr "Pendiente"; VInt 1])).
Proof.
  assert (Hnd : NoDup ["estado_id"; "nombre_estado"])
    by (apply (bool_decide_unpack _); vm_compute; exact I).
  assert (Hperm : zip ["estado_id"; "nombre_estado"] [VInt 1; VStr "Pendiente"]
                  ≡ₚ zip ["nombre_estado"; "estado_id"]
                       [VStr "Pendiente"; VInt 1])
    by (simpl; apply perm_swap).
  split; [exact Hnd|]. split; [exact Hperm|].
  exact (proj2 (proj2 (records_ignore_column_order _ _ _ _ Hnd Hperm))).
Defined.

Lemma extra_columns_are_ignored_witness :
  length ["estado_id"] = length [VInt 1]
  ∧ ("creado_en" ∉ EstadoEnvio_fields.*1)
  ∧ EstadoEnvio.model
      (py_dict (zip (["estado_id"] ++ "creado_en" :: ["nombre_estado"])
                  ([VInt 1] ++ VDatetime (mk_datetime 2024 1 1 10 0 0 0)
                            :: [VStr "Pendiente"])))
    = EstadoEnvio.model
        (py_dict (zip (["estado_id"] ++ ["nombre_estado"])
                    ([VInt 1] ++ [VStr "Pendiente"]))).
Proof.
  assert (Hno : "creado_en" ∉ EstadoEnvio_fields.*1).
  { intros Hin%list_elem_of_In. simpl in Hin.
    destruct Hin as [Heq|[Heq|[]]]; discriminate Heq. }
  split; [reflexivity|]. split; [exact Hno|].
  exact (proj2 (proj2 (extra_columns_are_ignored ["estado_id"]
                         ["nombre_estado"] [VInt 1] [VStr "Pendiente"]
                         "creado_en"
                         (VDatetime (mk_datetime 2024 1 1 10 0 0 0))
                         eq_refl)) Hno).
Defined.

Lemma load_config_reads_port_witness :
  environ_full !! "DB_PORT" = Some (py_str 3306)
  ∧ load_config environ_full
    = (if exceeds_limit (decimal_digits 3306) then inl ValueError
       else inr (mk_config (environ_full !! "DB_HOST") 3306
                   (environ_full !! "DB_USER")
                   (environ_full !! "DB_PASSWORD")
                   (environ_full !! "DB_NAME")))
  ∧ load_config environ_full
    = inr (mk_config (Some "db.example") 3306 (Some "api") (Some "secret")
             (Some "envios")).
Proof.
  assert (Hport : environ_full !! "DB_PORT" = Some (py_str 3306))
    by (vm_compute; reflexivity).
  assert (Hsmall : Z.abs 3306 < 10 ^ 640) by (vm_compute; reflexivity).
  split; [exact Hport|]. split.
  - exact (proj1 (load_config_reads_port environ_full 3306 Hport)).
  - exact (proj2 (load_config_reads_port environ_full 3306 Hport) Hsmall).
Defined.

Lemma isoformat_inj_witness :
  datetime_ok (mk_datetime 2024 2 29 8 30 0 250000) = true
  ∧ isoformat (mk_datetime 2024 2 29 8 30 0 250000)
    = isoformat (mk_datetime 2024 2 29 8 30 0 250000)
  ∧ mk_datetime 2024 2 29 8 30 0 250000
    = mk_datetime 2024 2 29 8 30 0 250000.
Proof.
  split; [reflexivity|]. split; [reflexivity|].
  exact (isoformat_inj (mk_datetime 2024 2 29 8 30 0 250000)
           (mk_datetime 2024 2 29 8 30 0 250000) eq_refl eq_refl eq_refl).
Defined.
